(** * Legion: a shallow embedding of the peer coordination core

    The development follows the Python sources module by module:
    - [networking.py]  : the UDP receive loop and the framed TCP transfer;
    - [election.py]    : the bully-style election manager;
    - [peer.py]        : the message handlers, the dispatcher and the
                         leader's liveness sweep;
    - [file_manager.py]: the download path with its integrity check.

    Modelling conventions.
    - A Python [dict] is a [gmap]; the handlers never depend on the
      iteration order of a dictionary, only on its contents.
    - Peer identifiers and filenames are [string]s; Python compares
      [str] by code point, which on UTF-8 encoded text is the bytewise
      lexicographic order of [String.compare].
    - [time.time()] and [get_local_ip()] are readings of the
      environment: every handler receives them in an [Env].  Timestamps
      are integers (clock ticks of one second).
    - A handler runs in a state-and-exception monad over the [World]:
      the peer object together with the packets sent and timers armed
      so far.  A Python exception leaves the mutations made before it in
      place, and so does [Raise] here.
    - Console output of the peer handlers is not part of the state and
      is left out; it is kept for the receive loop and for the download
      path, whose logging the specification talks about. *)

From stdpp Require Import gmap strings list fin_maps.
From Stdlib Require Import ZArith String Strings.Byte.

Open Scope string_scope.
Open Scope list_scope.
Open Scope Z_scope.

(** ** Python values shared by all modules *)

(** The exceptions of the program; [OSError] stands for an OSError of
    a subclass that the platform decides. *)
Inductive exn : Type :=
  | KeyError (key : string)
  | TypeError
  | JSONDecodeError
  | OSError
  | StructError
  | FileNotFoundError.

Inductive result (A : Type) : Type :=
  | Ok (a : A)
  | Raise (e : exn).
Arguments Ok {A} a.
Arguments Raise {A} e.

(** The state-and-exception monad. *)
Definition M (S A : Type) : Type := S → S * result A.

Definition ret {S A} (a : A) : M S A := λ s, (s, Ok a).

Definition bind {S A B} (c : M S A) (k : A → M S B) : M S B :=
  λ s, match c s with
       | (s', Ok a) => k a s'
       | (s', Raise e) => (s', Raise e)
       end.

Definition raise {S A} (e : exn) : M S A := λ s, (s, Raise e).
Definition get {S} : M S S := λ s, (s, Ok s).
Definition modify {S} (f : S → S) : M S unit := λ s, (f s, Ok tt).

#[global] Instance M_ret {S} : MRet (M S) := λ A, ret.
#[global] Instance M_bind {S} : MBind (M S) := λ A B k c, bind c k.

(** [d[k]] on a message field that may be absent. *)
Definition item {S A} (key : string) (field : option A) : M S A :=
  match field with
  | Some a => ret a
  | None => raise (KeyError key)
  end.

(** Truth value of an optional string: [None] and [''] are falsy. *)
Definition truthy (o : option string) : bool :=
  match o with
  | Some s => negb (String.eqb s "")
  | None => false
  end.

(** [a or b] on optional strings. *)
Definition py_or (a b : option string) : option string :=
  if truthy a then a else b.

(** [a > b] and [a < b] on [str]. *)
Definition str_gt (a b : string) : bool := String.ltb b a.
Definition str_lt (a b : string) : bool := String.ltb a b.

(** An address is the pair [(ip, port)]. *)
Definition Addr : Type := string * Z.

(** ** peer.py: constants and data *)

Inductive Role : Type := FOLLOWER | CANDIDATE | LEADER.

#[global] Instance Role_eq_dec : EqDecision Role.
Proof. solve_decision. Defined.

Definition role_str (r : Role) : string :=
  match r with
  | FOLLOWER => "FOLLOWER"
  | CANDIDATE => "CANDIDATE"
  | LEADER => "LEADER"
  end.

Definition MSG_DISCOVERY : string := "DISCOVERY".
Definition MSG_DISCOVERY_RESPONSE : string := "DISCOVERY_RESPONSE".
Definition MSG_HEARTBEAT : string := "HEARTBEAT".
Definition MSG_ELECTION : string := "ELECTION".
Definition MSG_COORDINATOR : string := "COORDINATOR".
Definition MSG_PUBLISH : string := "PUBLISH".
Definition MSG_QUERY_FILES : string := "QUERY_FILES".
Definition MSG_FILE_LIST : string := "FILE_LIST".

(** One catalog entry: [{'peer_id', 'host', 'port', 'size', 'hash'}]. *)
Record Entry : Type := mkEntry {
  e_peer_id : string;
  e_host : string;
  e_port : Z;
  e_size : Z;
  e_hash : option string
}.

(** The metadata of a published file; either key may be missing. *)
Record Metadata : Type := mkMetadata {
  md_size : option Z;
  md_hash : option string
}.

(** The ['files'] field of a PUBLISH: a mapping, or the old plain list. *)
Inductive Files : Type :=
  | files_dict (d : gmap string Metadata)
  | files_list (l : list string).

(** A message is a JSON object; a key the handlers read may be absent. *)
Record Message : Type := mkMessage {
  m_type : option string;
  m_sender_id : option string;
  m_addr : option Addr;
  m_leader_id : option string;
  m_peer_id : option string;
  m_role : option string;
  m_files : option Files;
  m_tcp_port : option Z;
  m_catalog : option (gmap string (list Entry))
}.

Definition empty_message : Message :=
  mkMessage None None None None None None None None None.

(** The messages the peer builds. *)
Definition discovery_msg (sender : string) (a : Addr) : Message :=
  mkMessage (Some MSG_DISCOVERY) (Some sender) (Some a)
            None None None None None None.

Definition discovery_response_msg (sender leader : string) : Message :=
  mkMessage (Some MSG_DISCOVERY_RESPONSE) (Some sender) None
            (Some leader) None None None None None.

Definition peer_heartbeat_msg (peer : string) : Message :=
  mkMessage (Some MSG_HEARTBEAT) None None None (Some peer)
            None None None None.

Definition leader_heartbeat_msg (sender : string) : Message :=
  mkMessage (Some MSG_HEARTBEAT) (Some sender) None None None
            (Some (role_str LEADER)) None None None.

Definition election_msg (sender : string) : Message :=
  mkMessage (Some MSG_ELECTION) (Some sender) None None None
            None None None None.

Definition coordinator_msg (sender : string) (a : Addr) : Message :=
  mkMessage (Some MSG_COORDINATOR) (Some sender) (Some a)
            None None None None None None.

Definition publish_msg (sender : string) (files : Files) (port : Z)
  : Message :=
  mkMessage (Some MSG_PUBLISH) (Some sender) None None None None
            (Some files) (Some port) None.

Definition file_list_msg (sender : string)
    (catalog : gmap string (list Entry)) : Message :=
  mkMessage (Some MSG_FILE_LIST) (Some sender) None None None None
            None None (Some catalog).

(** A directory record: [{'addr': (ip, port), 'last_seen': t}]. *)
Record PeerRecord : Type := mkPeerRecord {
  addr : Addr;
  last_seen : Z
}.

(** The fields of [ElectionManager]. *)
Record ElectionManager : Type := mkElectionManager {
  election_in_progress : bool;
  last_election_time : Z
}.

(** The fields of [Peer]; [udp_port] and [tcp_port] are the ports of
    [unicast_socket] and [tcp_server]. *)
Record Peer : Type := mkPeer {
  id : string;
  state : Role;
  leader_id : option string;
  peers : gmap string PeerRecord;
  global_catalog : gmap string (list Entry);
  last_heartbeats : gmap string Z;
  last_leader_heartbeat : Z;
  udp_port : Z;
  tcp_port : Z;
  election_manager : ElectionManager
}.

Definition with_state (r : Role) (p : Peer) : Peer :=
  mkPeer (id p) r (leader_id p) (peers p) (global_catalog p)
         (last_heartbeats p) (last_leader_heartbeat p)
         (udp_port p) (tcp_port p) (election_manager p).

Definition with_leader_id (l : option string) (p : Peer) : Peer :=
  mkPeer (id p) (state p) l (peers p) (global_catalog p)
         (last_heartbeats p) (last_leader_heartbeat p)
         (udp_port p) (tcp_port p) (election_manager p).

Definition with_peers (d : gmap string PeerRecord) (p : Peer) : Peer :=
  mkPeer (id p) (state p) (leader_id p) d (global_catalog p)
         (last_heartbeats p) (last_leader_heartbeat p)
         (udp_port p) (tcp_port p) (election_manager p).

Definition with_global_catalog (c : gmap string (list Entry)) (p : Peer)
  : Peer :=
  mkPeer (id p) (state p) (leader_id p) (peers p) c
         (last_heartbeats p) (last_leader_heartbeat p)
         (udp_port p) (tcp_port p) (election_manager p).

Definition with_last_heartbeats (h : gmap string Z) (p : Peer) : Peer :=
  mkPeer (id p) (state p) (leader_id p) (peers p) (global_catalog p)
         h (last_leader_heartbeat p)
         (udp_port p) (tcp_port p) (election_manager p).

Definition with_last_leader_heartbeat (t : Z) (p : Peer) : Peer :=
  mkPeer (id p) (state p) (leader_id p) (peers p) (global_catalog p)
         (last_heartbeats p) t
         (udp_port p) (tcp_port p) (election_manager p).

Definition with_election_manager (em : ElectionManager) (p : Peer) : Peer :=
  mkPeer (id p) (state p) (leader_id p) (peers p) (global_catalog p)
         (last_heartbeats p) (last_leader_heartbeat p)
         (udp_port p) (tcp_port p) em.

Definition with_election_in_progress (b : bool) (p : Peer) : Peer :=
  with_election_manager
    (mkElectionManager b (last_election_time (election_manager p))) p.

Definition with_last_election_time (t : Z) (p : Peer) : Peer :=
  with_election_manager
    (mkElectionManager (election_in_progress (election_manager p)) t) p.

(** ** Effects of a handler on the outside world *)

Definition BROADCAST_PORT : Z := 5007.
Definition BUFFER_SIZE : Z := 4096.

(** The two one-shot timers of the program, named by their callback. *)
Inductive TimerCallback : Type :=
  | cb_check_discovery_timeout
  | cb_check_election_result.

Inductive Effect : Type :=
  | SendPacket (message : Message) (to : Addr)
  | SendBroadcast (message : Message) (port : Z)
  | StartTimer (seconds : Z) (callback : TimerCallback).

(** The peer, and the effects it has issued, oldest first. *)
Record World : Type := mkWorld {
  self : Peer;
  effects : list Effect
}.

(** What a handler reads from its environment. *)
Record Env : Type := mkEnv {
  now : Z;
  get_local_ip : string
}.

Definition update (f : Peer → Peer) : M World unit :=
  modify (λ w, mkWorld (f (self w)) (effects w)).

Definition emit (e : Effect) : M World unit :=
  modify (λ w, mkWorld (self w) (effects w ++ [e])).

Definition this : M World Peer := λ w, (w, Ok (self w)).

(** [UDPSocket.send_packet] and [UDPSocket.send_broadcast] catch their
    own exceptions: for the caller they always return. *)
Definition send_packet (message : Message) (to : Addr) : M World unit :=
  emit (SendPacket message to).

Definition send_broadcast (message : Message) : M World unit :=
  emit (SendBroadcast message BROADCAST_PORT).

Definition start_timer (seconds : Z) (cb : TimerCallback) : M World unit :=
  emit (StartTimer seconds cb).

(** ** election.py *)

Definition start_election (env : Env) : M World unit :=
  p ← this;
  if election_in_progress (election_manager p) then mret tt
  else
    update (with_election_in_progress true);;
    update (with_last_election_time (now env));;
    p ← this;
    send_broadcast (election_msg (id p));;
    start_timer 3 cb_check_election_result.

Definition handle_election_message (env : Env) (message : Message)
  : M World unit :=
  sender_id ← item "sender_id" (m_sender_id message);
  p ← this;
  if str_gt sender_id (id p) then
    update (with_election_in_progress false)
  else if str_lt sender_id (id p) then
    if negb (election_in_progress (election_manager p))
    then start_election env
    else mret tt
  else mret tt.

Definition declare_victory (env : Env) : M World unit :=
  update (with_state LEADER);;
  p ← this;
  update (with_leader_id (Some (id p)));;
  update (with_election_in_progress false);;
  p ← this;
  send_broadcast (coordinator_msg (id p) (get_local_ip env, udp_port p)).

Definition check_election_result (env : Env) : M World unit :=
  p ← this;
  if election_in_progress (election_manager p)
  then declare_victory env
  else mret tt.

(** ** peer.py: handlers *)

Definition discover_leader (env : Env) : M World unit :=
  p ← this;
  send_broadcast (discovery_msg (id p) (get_local_ip env, udp_port p));;
  start_timer 5 cb_check_discovery_timeout.

Definition check_discovery_timeout (env : Env) : M World unit :=
  p ← this;
  match leader_id p with
  | None => start_election env
  | Some _ => mret tt
  end.

Definition handle_discovery (env : Env) (message : Message) (a : Addr)
  : M World unit :=
  p ← this;
  if bool_decide (state p = LEADER) then
    sender_id ← item "sender_id" (m_sender_id message);
    send_packet (discovery_response_msg (id p) (id p)) a;;
    update (λ p, with_peers
                   (<[sender_id := mkPeerRecord a (now env)]> (peers p)) p)
  else mret tt.

Definition handle_discovery_response (env : Env) (message : Message)
    (a : option Addr) : M World unit :=
  leader ← item "leader_id" (m_leader_id message);
  update (with_leader_id (Some leader));;
  update (with_state FOLLOWER);;
  match a with
  | Some a =>
      update (λ p, with_peers
                     (<[leader := mkPeerRecord a (now env)]> (peers p)) p)
  | None => mret tt
  end.

(** Lines 251-256 of [handle_heartbeat]: the leader notes that a peer
    is alive. *)
Definition note_peer_heartbeat (env : Env) (message : Message)
  : M World unit :=
  let peer_id := py_or (m_peer_id message) (m_sender_id message) in
  if truthy peer_id then
    match peer_id with
    | Some peer_id =>
        update (λ p, with_last_heartbeats
                       (<[peer_id := now env]> (last_heartbeats p)) p);;
        update (λ p, with_peers
                       (alter (λ r, mkPeerRecord (addr r) (now env))
                              peer_id (peers p)) p)
    | None => mret tt
    end
  else mret tt.

Definition handle_heartbeat (env : Env) (message : Message)
  : M World unit :=
  p ← this;
  (if bool_decide (state p = FOLLOWER)
      && bool_decide (m_sender_id message = leader_id p)
   then update (with_last_leader_heartbeat (now env))
   else mret tt);;
  p ← this;
  if bool_decide (state p = LEADER) then
    if bool_decide (m_role message = Some (role_str LEADER)) then
      match m_sender_id message with
      | None => raise TypeError
      | Some sender_id =>
          if str_gt sender_id (id p) then
            update (with_state FOLLOWER);;
            update (with_leader_id (Some sender_id));;
            update (with_last_leader_heartbeat (now env))
          else note_peer_heartbeat env message
      end
    else note_peer_heartbeat env message
  else mret tt.

Definition handle_election (env : Env) (message : Message)
  : M World unit :=
  handle_election_message env message.

Definition handle_coordinator (env : Env) (message : Message)
  : M World unit :=
  new_leader ← item "sender_id" (m_sender_id message);
  let a := m_addr message in
  update (with_leader_id (Some new_leader));;
  update (with_state FOLLOWER);;
  update (with_election_in_progress false);;
  (match a with
   | Some a =>
       update (λ p, with_peers
                      (<[new_leader := mkPeerRecord a (now env)]> (peers p))
                      p)
   | None => mret tt
   end);;
  update (with_global_catalog ∅).

(** [{f: {'size': 0, 'hash': None} for f in files}] *)
Definition dict_of_names (names : list string) : gmap string Metadata :=
  foldl (λ d f, <[f := mkMetadata (Some 0) None]> d) ∅ names.

(** The body of the loop over [files.items()] in [handle_publish]. *)
Definition publish_one (peer_id host : string) (port : Z)
    (catalog : gmap string (list Entry)) (it : string * Metadata)
  : gmap string (list Entry) :=
  let '(filename, metadata) := it in
  let catalog :=
    match catalog !! filename with
    | None => <[filename := []]> catalog
    | Some _ => catalog
    end in
  let catalog :=
    <[filename :=
        filter (λ entry, e_peer_id entry ≠ peer_id)
               (default [] (catalog !! filename))]> catalog in
  let entry :=
    mkEntry peer_id host port
            (default 0 (md_size metadata)) (md_hash metadata) in
  <[filename := default [] (catalog !! filename) ++ [entry]]> catalog.

Definition publish_loop (peer_id host : string) (port : Z)
    (files : gmap string Metadata) (catalog : gmap string (list Entry))
  : gmap string (list Entry) :=
  foldl (publish_one peer_id host port) catalog (map_to_list files).

Definition handle_publish (env : Env) (message : Message)
    (a : option Addr) : M World unit :=
  p ← this;
  if bool_decide (state p = LEADER) then
    sender_id ← item "sender_id" (m_sender_id message);
    files ← item "files" (m_files message);
    tcp_port ← item "tcp_port" (m_tcp_port message);
    let peer_id := sender_id in
    let port := tcp_port in
    let files :=
      match files with
      | files_list names => dict_of_names names
      | files_dict d => d
      end in
    let host :=
      match a with
      | Some a => a.1
      | None => get_local_ip env
      end in
    update (λ p, with_global_catalog
                   (publish_loop peer_id host port files (global_catalog p))
                   p)
  else mret tt.

Definition handle_query_files (env : Env) (message : Message) (a : Addr)
  : M World unit :=
  p ← this;
  if bool_decide (state p = LEADER) then
    _ ← item "sender_id" (m_sender_id message);
    send_packet (file_list_msg (id p) (global_catalog p)) a
  else mret tt.

Definition handle_file_list (env : Env) (message : Message)
  : M World unit :=
  catalog ← item "catalog" (m_catalog message);
  update (with_global_catalog catalog).

(** The dispatcher. *)
Definition handle_udp_message (env : Env) (message : Message) (a : Addr)
  : M World unit :=
  let msg_type := m_type message in
  let sender_id := m_sender_id message in
  p ← this;
  if bool_decide (sender_id = Some (id p)) then mret tt
  else if bool_decide (msg_type = Some MSG_DISCOVERY) then
    handle_discovery env message a
  else if bool_decide (msg_type = Some MSG_DISCOVERY_RESPONSE) then
    handle_discovery_response env message (Some a)
  else if bool_decide (msg_type = Some MSG_HEARTBEAT) then
    handle_heartbeat env message
  else if bool_decide (msg_type = Some MSG_ELECTION) then
    handle_election env message
  else if bool_decide (msg_type = Some MSG_COORDINATOR) then
    handle_coordinator env message
  else if bool_decide (msg_type = Some MSG_PUBLISH) then
    handle_publish env message (Some a)
  else if bool_decide (msg_type = Some MSG_QUERY_FILES) then
    handle_query_files env message a
  else if bool_decide (msg_type = Some MSG_FILE_LIST) then
    handle_file_list env message
  else mret tt.

(** ** peer.py: user operations and periodic loops *)

(** [publish_files]; [files] is what [file_manager.list_files()]
    returned. *)
Definition publish_files (env : Env) (files : gmap string Metadata)
  : M World unit :=
  p ← this;
  if negb (truthy (leader_id p)) then mret tt
  else if bool_decide (files = ∅) then mret tt
  else
    let msg := publish_msg (id p) (files_dict files) (tcp_port p) in
    match leader_id p ≫= (λ l, peers p !! l) with
    | Some leader_info => send_packet msg (addr leader_info)
    | None =>
        if bool_decide (state p = LEADER)
        then handle_publish env msg None
        else mret tt
    end.

(** [query_files]: a leader answers itself on the console only. *)
Definition query_files (env : Env) : M World unit :=
  p ← this;
  if negb (truthy (leader_id p)) then mret tt
  else
    let msg :=
      mkMessage (Some MSG_QUERY_FILES) (Some (id p)) None None None None
                None None None in
    match leader_id p ≫= (λ l, peers p !! l) with
    | Some leader_info => send_packet msg (addr leader_info)
    | None => mret tt
    end.

(** One turn of the [while self.running] loop of [_send_heartbeats]. *)
Definition send_heartbeats_cycle (env : Env) : M World unit :=
  p ← this;
  if truthy (leader_id p) && bool_decide (leader_id p ≠ Some (id p)) then
    match leader_id p ≫= (λ l, peers p !! l) with
    | Some leader_info =>
        send_packet (peer_heartbeat_msg (id p)) (addr leader_info)
    | None => mret tt
    end
  else mret tt.

(** The body of the loop over [list(self.global_catalog.keys())]. *)
Definition purge_one (peer_id : string)
    (catalog : gmap string (list Entry)) (filename : string)
  : gmap string (list Entry) :=
  let catalog :=
    <[filename :=
        filter (λ entry, e_peer_id entry ≠ peer_id)
               (default [] (catalog !! filename))]> catalog in
  match default [] (catalog !! filename) with
  | [] => delete filename catalog
  | _ :: _ => catalog
  end.

Definition purge_catalog (peer_id : string)
    (catalog : gmap string (list Entry)) : gmap string (list Entry) :=
  foldl (purge_one peer_id) catalog (map_to_list catalog).*1.

(** The body of the loop over [dead_peers]. *)
Definition remove_dead_peer (p : Peer) (peer_id : string) : Peer :=
  let p := with_last_heartbeats (delete peer_id (last_heartbeats p)) p in
  let p := with_peers (delete peer_id (peers p)) p in
  with_global_catalog (purge_catalog peer_id (global_catalog p)) p.

Definition dead_peers (env : Env) (p : Peer) : list string :=
  (filter (λ it : string * Z, 15 < now env - it.2)
          (map_to_list (last_heartbeats p))).*1.

(** One turn of the [while self.running] loop of [_monitor_peers]. *)
Definition monitor_peers_cycle (env : Env) : M World unit :=
  p ← this;
  if bool_decide (state p = LEADER) then
    update (λ p, foldl remove_dead_peer p (dead_peers env p))
  else mret tt.

(** One turn of [heartbeat_loop], after its sleep. *)
Definition heartbeat_cycle (env : Env) : M World unit :=
  p ← this;
  if bool_decide (state p = LEADER) then
    send_broadcast (leader_heartbeat_msg (id p))
  else if bool_decide (state p = FOLLOWER) then
    if truthy (leader_id p)
       && bool_decide (10 < now env - last_leader_heartbeat p) then
      update (with_leader_id None);;
      start_election env
    else mret tt
  else mret tt.

(** A timer that expires runs its callback. *)
Definition fire_timer (env : Env) (cb : TimerCallback) : M World unit :=
  match cb with
  | cb_check_discovery_timeout => check_discovery_timeout env
  | cb_check_election_result => check_election_result env
  end.

(** ** networking.py: the UDP receive loop *)

(** What the console shows. *)
Inductive Line : Type :=
  | Error_receiving_UDP_packet (e : exn)
  | Error_receiving_file (e : exn)
  | Downloading (filename host : string) (port : Z)
  | Progress (filled percent : Z)
  | Downloaded (filename save_path : string)
  | Verifying_file_integrity
  | SUCCESS_integrity_verified
  | WARNING_integrity_check_FAILED
  | Expected (h : string)
  | Got (h : string)
  | Error_downloading_file (e : exn).

(** What one call of [sock.recvfrom] produces. *)
Inductive Recv : Type :=
  | recv_error (e : exn)
  | recv_data (data : list byte) (from : Addr).

(** Where the receive loop stands once the datagrams that arrived
    have been consumed: still inside [recvfrom], or left by [break]. *)
Inductive LoopState : Type := Receiving | Broken.

Record Listener (W : Type) : Type := mkListener {
  world : W;
  console : list Line;
  loop : LoopState
}.
Arguments mkListener {W} world console loop.
Arguments world {W} l.
Arguments console {W} l.
Arguments loop {W} l.

Section UDPSocket.
Context {W : Type}.

(** [json.loads(data.decode('utf-8'))]: the message, or the exception
    raised for bytes that are not UTF-8 or not JSON. *)
Variable json_loads : list byte → result Message.

(** The callback handed to [listen]. *)
Variable callback : Message → Addr → M W unit.

(** [UDPSocket.listen]: the [while True] loop of [_listen], run on the
    datagrams [inbox] in their order of arrival. *)
Fixpoint listen (inbox : list Recv) (w : W) (out : list Line)
  : Listener W :=
  match inbox with
  | [] => mkListener w out Receiving
  | recv_error e :: _ =>
      mkListener w (out ++ [Error_receiving_UDP_packet e]) Broken
  | recv_data data from :: inbox =>
      match json_loads data with
      | Raise e =>
          mkListener w (out ++ [Error_receiving_UDP_packet e]) Broken
      | Ok message =>
          match callback message from w with
          | (w, Ok _) => listen inbox w out
          | (w, Raise e) =>
              mkListener w (out ++ [Error_receiving_UDP_packet e]) Broken
          end
      end
  end.
End UDPSocket.

(** ** networking.py: [TCPClient.receive_file] *)

(** The receiving end of a connection: the bytes the other side sends
    before the stream ends, and whether it ends by a reset (then [recv]
    raises) or by an orderly close (then [recv] returns [b'']). *)
Record Socket : Type := mkSocket {
  pending : list byte;
  ends_in_reset : bool
}.

(** [sock.recv(n)], handing out as much as was asked for when the
    bytes are there. *)
Definition recv (n : Z) (s : Socket) : result (list byte) * Socket :=
  match pending s with
  | [] => (if ends_in_reset s then Raise OSError else Ok [], s)
  | _ :: _ =>
      (Ok (take (Z.to_nat n) (pending s)),
       mkSocket (drop (Z.to_nat n) (pending s)) (ends_in_reset s))
  end.

(** [struct.unpack('>Q', raw)[0]] *)
Definition unpack_Q (raw : list byte) : result Z :=
  if bool_decide (List.length raw = 8%nat)
  then Ok (foldl (λ acc b, acc * 256 + Z.of_N (Byte.to_N b)) 0 raw)
  else Raise StructError.

(** What happens on the downloading machine. *)
Inductive Event : Type :=
  | Print (line : Line)
  | Calculate_hash (path : string).

(** The downloading machine: its files and directories, each known by
    the path the program uses for it, and the events so far, oldest
    first. *)
Record Machine : Type := mkMachine {
  files : gmap string (list byte);
  dirs : gset string;
  trace : list Event
}.

Definition event (e : Event) : M Machine unit :=
  modify (λ m, mkMachine (files m) (dirs m) (trace m ++ [e])).

(** [os.path.exists(p)]: a directory or a regular file. *)
Definition path_exists (m : Machine) (p : string) : bool :=
  bool_decide (p ∈ dirs m) || bool_decide (is_Some (files m !! p)).

(** [if not os.path.exists(d): os.makedirs(d)]; [makedirs] is taken to
    succeed, and of the directories it makes the last is recorded. *)
Definition ensure_dir (d : string) : M Machine unit :=
  modify (λ m, if path_exists m d then m
               else mkMachine (files m) ({[d]} ∪ dirs m) (trace m)).

Definition print (l : Line) : M Machine unit := event (Print l).

(** Whether the directory a path lies in is there; a path without a
    directory part lies in the current directory.  [dirname] is
    [os.path.dirname]. *)
Definition parent_exists (dirname : string → string) (m : Machine)
    (path : string) : bool :=
  bool_decide (dirname path = "") || bool_decide (dirname path ∈ dirs m).

(** A last component that can only name a directory: the path ends in
    a separator, or in "." or "..". *)
Definition directory_name (name : string) : bool :=
  bool_decide (name = "") || bool_decide (name = ".")
  || bool_decide (name = "..").

(** Why [open(path, 'wb')] fails, if it does: the path is empty, it can
    only name a directory, the directory it lies in is a regular file
    or is missing, or the path is a directory.  [basename] is
    [os.path.basename]. *)
Definition open_error (dirname basename : string → string) (m : Machine)
    (path : string) : option exn :=
  if bool_decide (path = "") then Some FileNotFoundError
  else if directory_name (basename path) then Some OSError
  else if bool_decide (is_Some (files m !! dirname path)) then Some OSError
  else if negb (parent_exists dirname m path) then Some FileNotFoundError
  else if bool_decide (path ∈ dirs m) then Some OSError
  else None.

(** [open(path, 'wb')]: it raises, or creates or truncates the file. *)
Definition open_wb (dirname basename : string → string) (path : string)
  : M Machine unit :=
  λ m, match open_error dirname basename m path with
       | Some e => (m, Raise e)
       | None =>
           (mkMachine (<[path := []]> (files m)) (dirs m) (trace m), Ok tt)
       end.

(** [f.write(chunk)] appends. *)

Definition write (path : string) (chunk : list byte) : M Machine unit :=
  modify (λ m, mkMachine
                 (<[path := default [] (files m !! path) ++ chunk]> (files m))
                 (dirs m) (trace m)).

(** [try: body except Exception as e: handler(e)] *)
Definition try_except {S} (body : M S unit) (handler : exn → M S unit)
  : M S unit :=
  λ s, match body s with
       | (s', Ok a) => (s', Ok a)
       | (s', Raise e) => handler e s'
       end.

(** The [while received < filesize] loop.  Every turn that does not
    leave the loop takes at least one byte off the socket, so [fuel]
    above the number of pending bytes is never used up. *)
Fixpoint receive_loop (fuel : nat)
    (progress_callback : Z → Z → M Machine unit) (save_path : string)
    (filesize received : Z) (sock : Socket) : M Machine unit :=
  match fuel with
  | O => mret tt
  | S fuel =>
      if bool_decide (received < filesize) then
        match recv (Z.min BUFFER_SIZE (filesize - received)) sock with
        | (Raise e, _) => raise e
        | (Ok [], _) => mret tt
        | (Ok chunk, sock) =>
            write save_path chunk;;
            let received := received + Z.of_nat (List.length chunk) in
            progress_callback received filesize;;
            receive_loop fuel progress_callback save_path
                         filesize received sock
        end
      else mret tt
  end.

Definition receive_file (dirname basename : string → string)
    (sock : Socket)
    (save_path : string) (progress_callback : Z → Z → M Machine unit)
  : M Machine unit :=
  try_except
    (match recv 8 sock with
     | (Raise e, _) => raise e
     | (Ok [], _) => mret tt
     | (Ok raw_size, sock) =>
         match unpack_Q raw_size with
         | Raise e => raise e
         | Ok filesize =>
             open_wb dirname basename save_path;;
             receive_loop (S (List.length (pending sock))) progress_callback
                          save_path filesize 0 sock
         end
     end)
    (λ e, print (Error_receiving_file e)).

(** ** file_manager.py: [FileManager.download_file] *)

(** What [socket.create_connection] and [sock.sendall] meet. *)
Inductive Connection : Type :=
  | refused (e : exn)
  | send_fails (e : exn)
  | established (sock : Socket).

Section FileManager.
(** [hashlib.sha256(...).hexdigest()] of a file's content. *)
Variable sha256_hexdigest : list byte → string.

(** [os.path.join] *)
Variable path_join : string → string → string.

(** [os.path.dirname] and [os.path.basename] *)
Variable dirname : string → string.
Variable basename : string → string.

(** Connecting to [(host, port)] and sending the request. *)
Variable connect : string → Z → string → Connection.

(** [self.shared_dir] *)
Variable shared_dir : string.

Definition _calculate_hash (filepath : string) : M Machine string :=
  event (Calculate_hash filepath);;
  m ← get;
  match files m !! filepath with
  | Some content => mret (sha256_hexdigest content)
  | None => raise FileNotFoundError
  end.

(** The progress callback; [int(100 * received / total)] is the
    integer quotient for every size a transfer can have. *)
Definition show_progress (received total : Z) : M Machine unit :=
  let percent := if bool_decide (0 < total)
                 then 100 * received / total else 0 in
  let bar_len := 20 in
  let filled := if bool_decide (0 < total)
                then bar_len * received / total else 0 in
  if bool_decide (percent mod 20 = 0) && bool_decide (0 < received)
  then print (Progress filled percent)
  else mret tt.

(** The [with socket.create_connection(...)] block; it yields
    [save_path]. *)
Definition transfer (host : string) (port : Z) (filename : string)
    (save_dir : option string) : M Machine string :=
  match connect host port filename with
  | refused e => raise e
  | send_fails e => raise e
  | established sock =>
      let target_dir := if truthy save_dir
                        then default shared_dir save_dir
                        else shared_dir in
      ensure_dir target_dir;;
      let save_path := path_join target_dir filename in
      receive_file dirname basename sock save_path show_progress;;
      mret save_path
  end.

(** The [if expected_hash:] block. *)
Definition verify (save_path : string) (expected_hash : option string)
  : M Machine unit :=
  if truthy expected_hash then
    print Verifying_file_integrity;;
    calculated_hash ← _calculate_hash save_path;
    if bool_decide (Some calculated_hash = expected_hash)
    then print SUCCESS_integrity_verified
    else
      print WARNING_integrity_check_FAILED;;
      print (Expected (default "" expected_hash));;
      print (Got calculated_hash)
  else mret tt.

Definition download_file (host : string) (port : Z) (filename : string)
    (save_dir expected_hash : option string) : M Machine unit :=
  print (Downloading filename host port);;
  try_except
    (save_path ← transfer host port filename save_dir;
     print (Downloaded filename save_path);;
     verify save_path expected_hash)
    (λ e, print (Error_downloading_file e)).
End FileManager.

(** * Vocabulary of the statements *)

(** What [start_election] does when it does start. *)
Definition election_started (env : Env) (w : World) : World :=
  mkWorld
    (with_last_election_time (now env)
       (with_election_in_progress true (self w)))
    (effects w ++ [SendBroadcast (election_msg (id (self w))) BROADCAST_PORT;
                   StartTimer 3 cb_check_election_result]).


(** What [declare_victory] leaves behind. *)
Definition victory_declared (env : Env) (w : World) : World :=
  let p := self w in
  mkWorld
    (mkPeer (id p) LEADER (Some (id p)) (peers p) (global_catalog p)
            (last_heartbeats p) (last_leader_heartbeat p)
            (udp_port p) (tcp_port p)
            (mkElectionManager false
               (last_election_time (election_manager p))))
    (effects w
     ++ [SendBroadcast
           (coordinator_msg (id p) (get_local_ip env, udp_port p))
           BROADCAST_PORT]).

(** What a COORDINATOR from [new_leader] leaves behind. *)
Definition coordinator_accepted (env : Env) (new_leader : string)
    (a : option Addr) (w : World) : World :=
  let p := self w in
  mkWorld
    (mkPeer (id p) FOLLOWER (Some new_leader)
            (match a with
             | Some a => <[new_leader := mkPeerRecord a (now env)]> (peers p)
             | None => peers p
             end)
            ∅
            (last_heartbeats p) (last_leader_heartbeat p)
            (udp_port p) (tcp_port p)
            (mkElectionManager false
               (last_election_time (election_manager p))))
    (effects w).

(** What stepping down in favour of [sender_id] leaves behind. *)
Definition stepped_down (env : Env) (sender_id : string) (w : World)
  : World :=
  let p := self w in
  mkWorld
    (mkPeer (id p) FOLLOWER (Some sender_id) (peers p) (global_catalog p)
            (last_heartbeats p) (now env)
            (udp_port p) (tcp_port p) (election_manager p))
    (effects w).

(** The receive loop as the specification describes it: a datagram that
    does not decode is logged and skipped, and the loop goes on with the
    datagrams behind it. *)
Definition logged_and_skipped {W : Type}
    (json_loads : list byte → result Message)
    (callback : Message → Addr → M W unit)
    (data : list byte) (from : Addr) (inbox : list Recv)
    (w : W) (out : list Line) : Prop :=
  ∀ e, json_loads data = Raise e →
       listen json_loads callback (recv_data data from :: inbox) w out
       = listen json_loads callback inbox w
                (out ++ [Error_receiving_UDP_packet e]).

(** The message with its ['files'] replaced. *)
Definition with_files (files : Files) (message : Message) : Message :=
  mkMessage (m_type message) (m_sender_id message) (m_addr message)
            (m_leader_id message) (m_peer_id message) (m_role message)
            (Some files) (m_tcp_port message) (m_catalog message).

(** The host a PUBLISH is attributed to. *)
Definition publish_host (env : Env) (a : option Addr) : string :=
  match a with
  | Some a => a.1
  | None => get_local_ip env
  end.

(** The entry [publish_one] builds. *)
Definition published_entry (peer_id host : string) (port : Z)
    (metadata : Metadata) : Entry :=
  mkEntry peer_id host port (default 0 (md_size metadata))
          (md_hash metadata).

(** The catalog invariant: under every filename, at most one entry per
    peer. *)
Definition one_entry_per_peer (catalog : gmap string (list Entry)) : Prop :=
  ∀ filename entries,
    catalog !! filename = Some entries → NoDup (e_peer_id <$> entries).

(** The FILE_LIST messages whose snapshot satisfies the invariant; all
    other messages are unconstrained. *)
Definition snapshot_well_formed (message : Message) : Prop :=
  m_type message = Some MSG_FILE_LIST →
  ∀ catalog, m_catalog message = Some catalog → one_entry_per_peer catalog.

(** Everything that can happen to a peer: a datagram is dispatched, the
    user publishes or queries, a timer expires, a periodic loop takes a
    turn.  The result of the operation, normal or exceptional, does not
    matter: the world it leaves behind does. *)
Inductive step (w : World) : World → Prop :=
  | step_udp_message env message a r w' :
      snapshot_well_formed message →
      handle_udp_message env message a w = (w', r) → step w w'
  | step_publish_files env files r w' :
      publish_files env files w = (w', r) → step w w'
  | step_query_files env r w' :
      query_files env w = (w', r) → step w w'
  | step_discover_leader env r w' :
      discover_leader env w = (w', r) → step w w'
  | step_timer env cb r w' :
      fire_timer env cb w = (w', r) → step w w'
  | step_heartbeat env r w' :
      heartbeat_cycle env w = (w', r) → step w w'
  | step_send_heartbeats env r w' :
      send_heartbeats_cycle env w = (w', r) → step w w'
  | step_monitor_peers env r w' :
      monitor_peers_cycle env w = (w', r) → step w w'.

(** What the sweep leaves under one filename once [peer_id] is purged:
    the entries of the other peers, or nothing when none is left. *)
Definition purged (peer_id : string) (entries : option (list Entry))
  : option (list Entry) :=
  match filter (λ e, e_peer_id e ≠ peer_id) (default [] entries) with
  | [] => None
  | e :: es => Some (e :: es)
  end.

(** A peer the leader has forgotten: it is in neither table and no
    catalog entry is attributed to it. *)
Definition forgotten (peer_id : string) (p : Peer) : Prop :=
  peers p !! peer_id = None
  ∧ last_heartbeats p !! peer_id = None
  ∧ ∀ filename entries,
      global_catalog p !! filename = Some entries →
      peer_id ∉ e_peer_id <$> entries.

(** The events of an integrity verification: the hash computation and
    the console lines of the [if expected_hash:] block. *)
Definition is_verification (ev : Event) : bool :=
  match ev with
  | Calculate_hash _ => true
  | Print Verifying_file_integrity => true
  | Print SUCCESS_integrity_verified => true
  | Print WARNING_integrity_check_FAILED => true
  | Print (Expected _) => true
  | Print (Got _) => true
  | Print _ => false
  end.

(** A computation that adds no verification event to the trace. *)
Definition unverified {A : Type} (c : M Machine A) : Prop :=
  ∀ m, ∃ new, trace (c m).1 = trace m ++ new
              ∧ Forall (λ ev, is_verification ev = false) new.

(** * Sample configurations *)

Definition env_100 : Env := mkEnv 100 "10.0.0.1".

Definition from_9 : Addr := ("10.0.0.9", 40009).

(** Peer ["m"], in a given role, electing or not. *)
Definition peer_m (role : Role) (electing : bool) : Peer :=
  mkPeer "m" role None ∅ ∅ ∅ 0 40001 50001 (mkElectionManager electing 0).

Definition world_m (role : Role) (electing : bool) : World :=
  mkWorld (peer_m role electing) [].

(** A decoder for the samples: the empty datagram is not JSON, every
    other datagram reads as an ELECTION from ["z"]. *)
Definition sample_json_loads (data : list byte) : result Message :=
  match data with
  | [] => Raise JSONDecodeError
  | _ :: _ => Ok (election_msg "z")
  end.

Definition bad_datagram : Recv := recv_data [] from_9.
Definition good_datagram : Recv := recv_data [x7b; x7d] from_9.

(** Two entries of peer ["x"] under one filename. *)
Definition names_ab : list string := ["a.txt"; "b.txt"].

Definition files_h1 : gmap string Metadata :=
  {[ "a.txt" := mkMetadata (Some 3) (Some "h1") ]}.

Definition files_h2 : gmap string Metadata :=
  {[ "a.txt" := mkMetadata (Some 3) (Some "h2") ]}.

Definition env_0 : Env := mkEnv 0 "10.0.0.1".

(** A leader that has answered the DISCOVERY of peer ["x"] and handled
    its PUBLISH, both at time 0; ["x"] never sent a heartbeat. *)
Definition world_discovered : World :=
  (handle_udp_message env_0 (discovery_msg "x" from_9) from_9
                      (world_m LEADER false)).1.

Definition world_published : World :=
  (handle_udp_message env_0 (publish_msg "x" (files_dict files_h1) 50009)
                      from_9 world_discovered).1.

(** A leader that has heard one heartbeat of peer ["x"], at time 0. *)
Definition world_heartbeat : World :=
  (handle_udp_message env_0 (peer_heartbeat_msg "x") from_9
                      world_published).1.

(** A download environment for the samples. *)
Definition sample_sha256 (content : list byte) : string :=
  match content with
  | [] => "e3b0"
  | _ :: _ => "2cf2"
  end.

Definition sample_path_join (dir name : string) : string :=
  String.append dir (String.append "/" name).

(** The text before the last slash of a path, if it has one. *)
Fixpoint before_last_slash (path : string) : option string :=
  match path with
  | EmptyString => None
  | String c rest =>
      match before_last_slash rest with
      | Some d => Some (String c d)
      | None => if Ascii.eqb c (Ascii.ascii_of_nat 47)
                then Some EmptyString else None
      end
  end.

(** [os.path.dirname] on the relative paths of the samples. *)
Definition sample_dirname (path : string) : string :=
  default "" (before_last_slash path).

(** The text after the last slash of a path, or all of it. *)
Fixpoint after_last_slash (path : string) : string :=
  match path with
  | EmptyString => EmptyString
  | String c rest =>
      match before_last_slash rest with
      | Some _ => after_last_slash rest
      | None => if Ascii.eqb c (Ascii.ascii_of_nat 47)
                then rest else String c rest
      end
  end.

(** [os.path.basename] on the paths of the samples. *)
Definition sample_basename (path : string) : string :=
  after_last_slash path.

(** The serving peer answers with the 8-byte length 2 and the bytes
    of "hi". *)
Definition sample_connect (host : string) (port : Z) (filename : string)
  : Connection :=
  established
    (mkSocket [x00; x00; x00; x00; x00; x00; x00; x02; x68; x69] false).

Definition empty_machine : Machine := mkMachine ∅ ∅ [].

(** * Further vocabulary *)

(** The message types the dispatcher knows. *)
Definition known_types : list string :=
  [MSG_DISCOVERY; MSG_DISCOVERY_RESPONSE; MSG_HEARTBEAT; MSG_ELECTION;
   MSG_COORDINATOR; MSG_PUBLISH; MSG_QUERY_FILES; MSG_FILE_LIST].

(** The requests only a leader serves. *)
Definition leader_only_types : list string :=
  [MSG_DISCOVERY; MSG_PUBLISH; MSG_QUERY_FILES].

(** The exceptions a handler can leave through. *)
Definition handler_exceptions : list exn :=
  [KeyError "sender_id"; KeyError "leader_id"; KeyError "files";
   KeyError "tcp_port"; KeyError "catalog"; TypeError].

(** * Further samples *)

(** Peer ["z"], a leader that knows nobody. *)
Definition world_leader_z : World :=
  mkWorld (mkPeer "z" LEADER (Some "z") ∅ ∅ ∅ 0 40026 50026
                  (mkElectionManager false 0)) [].

(** Peer ["z"], a follower that is not electing. *)
Definition world_idle_z : World :=
  mkWorld (mkPeer "z" FOLLOWER None ∅ ∅ ∅ 0 40026 50026
                  (mkElectionManager false 0)) [].

(** The sweep has spared a peer: its heartbeat record, its directory
    record and its catalog entries are what they were. *)
Definition spared (peer_id : string) (p p' : Peer) : Prop :=
  last_heartbeats p' !! peer_id = last_heartbeats p !! peer_id
  ∧ peers p' !! peer_id = peers p !! peer_id
  ∧ ∀ filename,
      filter (λ e, e_peer_id e = peer_id)
             (default [] (global_catalog p' !! filename))
      = filter (λ e, e_peer_id e = peer_id)
               (default [] (global_catalog p !! filename)).

(** The heartbeat peer ["x"] sends to its leader. *)
Definition heartbeat_x : Message := peer_heartbeat_msg "x".

(** Peer ["m"] as a follower of leader ["z"], last heard at time 0. *)
Definition world_follower_of_z : World :=
  mkWorld (mkPeer "m" FOLLOWER (Some "z") ∅ ∅ ∅ 0 40001 50001
                  (mkElectionManager false 0)) [].

Definition env_5 : Env := mkEnv 5 "10.0.0.1".

(** The mapping a PUBLISH is handled as, whichever form it came in. *)
Definition files_as_dict (files : Files) : gmap string Metadata :=
  match files with
  | files_list names => dict_of_names names
  | files_dict d => d
  end.

(** The QUERY_FILES message [query_files] builds. *)
Definition query_files_msg (sender : string) : Message :=
  mkMessage (Some MSG_QUERY_FILES) (Some sender) None None None None
            None None None.

(** No filename of the catalog is left with an empty list. *)
Definition no_empty_list (catalog : gmap string (list Entry)) : Prop :=
  ∀ filename entries, catalog !! filename = Some entries → entries ≠ [].

(** Peer ["m"] as a follower of ["z"] that knows where ["z"] is. *)
Definition world_follower_knows_z : World :=
  mkWorld (mkPeer "m" FOLLOWER (Some "z")
                  {[ "z" := mkPeerRecord ("10.0.0.26", 40026) 0 ]} ∅ ∅
                  0 40001 50001 (mkElectionManager false 0)) [].

Definition from_m : Addr := ("10.0.0.1", 40001).
Definition from_z : Addr := ("10.0.0.26", 40026).

(** Leader ["z"] with one catalog entry of peer ["x"]. *)
Definition world_leader_z_catalog : World :=
  mkWorld (mkPeer "z" LEADER (Some "z") ∅
                  {[ "a.txt" := [mkEntry "x" "10.0.0.9" 50009 3 (Some "h1")] ]}
                  ∅ 0 40026 50026 (mkElectionManager false 0)) [].

(** * The sending side of a transfer *)

(** The byte of value [z mod 256]. *)
Definition byte_of_Z (z : Z) : byte :=
  default x00 (Byte.of_N (Z.to_N (z mod 256))).

(** [struct.pack('>Q', n)]: eight bytes, most significant first; a
    number outside the unsigned 64-bit range is refused. *)
Definition pack_Q (n : Z) : result (list byte) :=
  if bool_decide (0 ≤ n < 2 ^ 64)
  then Ok ((λ i : Z, byte_of_Z (n / 256 ^ (7 - i))) <$> [0; 1; 2; 3; 4; 5; 6; 7])
  else Raise StructError.

(** What the serving side prints. *)
Inductive ServerLine : Type :=
  | Sending_file (filename : string)
  | File_not_found (filename : string)
  | Error_handling_transfer (e : exn)
  | Error_sending_file_name_os_is_not_defined.

(** The serving side of a connection: the payloads handed to
    [sendall], oldest first, the console, and whether the socket has
    been closed. *)
Record Server : Type := mkServer {
  sent : list (list byte);
  server_console : list ServerLine;
  closed : bool
}.

Definition sendall (payload : list byte) : M Server unit :=
  modify (λ s, mkServer (sent s ++ [payload]) (server_console s) (closed s)).

Definition server_print (l : ServerLine) : M Server unit :=
  modify (λ s, mkServer (sent s) (server_console s ++ [l]) (closed s)).

Definition close : M Server unit :=
  modify (λ s, mkServer (sent s) (server_console s) true).

(** [while chunk := f.read(size): sock.sendall(chunk)] on a file whose
    unread part is [content]; every turn but the last reads at least
    one byte, so [fuel] above the length of [content] is never used
    up. *)
Fixpoint send_chunks (fuel : nat) (size : Z) (content : list byte)
  : M Server unit :=
  match fuel with
  | O => mret tt
  | S fuel =>
      match take (Z.to_nat size) content with
      | [] => mret tt
      | chunk =>
          sendall chunk;;
          send_chunks fuel size (drop (Z.to_nat size) content)
      end
  end.

Section Sender.
(** [os.path.join] *)
Variable path_join : string → string → string.

(** [raw.decode('utf-8').strip()] on the bytes of the request. *)
Variable decode_strip : list byte → result string.

(** The regular files of the serving machine. *)
Variable disk : gmap string (list byte).

(** Its directories, each with the size [os.path.getsize] reports. *)
Variable disk_dirs : gmap string Z.

(** [self.shared_dir] *)
Variable shared_dir : string.

(** [FileManager.handle_transfer]; [client_sock] holds what the client
    has sent.  [os.path.exists] holds of directories too: for such a
    path the header of the directory's size goes out before
    [open(filepath, 'rb')] raises. *)
Definition handle_transfer (client_sock : Socket) : M Server unit :=
  try_except
    (match recv 1024 client_sock with
     | (Raise e, _) => raise e
     | (Ok raw, _) =>
         match decode_strip raw with
         | Raise e => raise e
         | Ok filename =>
             let filepath := path_join shared_dir filename in
             match disk !! filepath with
             | Some content =>
                 server_print (Sending_file filename);;
                 let filesize := Z.of_nat (List.length content) in
                 match pack_Q filesize with
                 | Raise e => raise e
                 | Ok header =>
                     sendall header;;
                     send_chunks (S (List.length content)) 4096 content
                 end
             | None =>
                 match disk_dirs !! filepath with
                 | Some filesize =>
                     server_print (Sending_file filename);;
                     match pack_Q filesize with
                     | Raise e => raise e
                     | Ok header => sendall header;; raise OSError
                     end
                 | None => server_print (File_not_found filename)
                 end
             end
         end
     end)
    (λ e, server_print (Error_handling_transfer e));;
  close.

End Sender.

(** [TCPClient.send_file].  Its [try] block opens with
    [os.path.getsize(file_path)], and networking.py does not import
    [os]: the name lookup raises NameError before anything is connected
    or sent, and the [except] clause prints it. *)
Definition send_file (host : string) (port : Z) (file_path : string)
  : M Server unit :=
  server_print Error_sending_file_name_os_is_not_defined.

Section ListFiles.
(** [hashlib.sha256(...).hexdigest()] of a file's content. *)
Variable sha256_hexdigest : list byte → string.

(** [os.path.join] *)
Variable path_join : string → string → string.

(** [self.shared_dir] *)
Variable shared_dir : string.

(** The regular files of the machine. *)
Variable disk : gmap string (list byte).

(** The body of the loop over [os.listdir(self.shared_dir)]. *)
Definition list_one (files : gmap string Metadata) (f : string)
  : gmap string Metadata :=
  if String.prefix "." f then files
  else
    let path := path_join shared_dir f in
    match disk !! path with
    | Some content =>
        <[f := mkMetadata (Some (Z.of_nat (List.length content)))
                          (Some (sha256_hexdigest content))]> files
    | None => files
    end.

(** [FileManager.list_files]; [listdir] is what [os.listdir] returns,
    or [None] when the shared directory does not exist. *)
Definition list_files (listdir : option (list string))
  : gmap string Metadata :=
  match listdir with
  | None => ∅
  | Some names => foldl list_one ∅ names
  end.
End ListFiles.

(** The bytes a server has put on the wire. *)
Definition wire (s : Server) : list byte := List.concat (sent s).

Definition idle_server : Server := mkServer [] [] false.

(** The directory a download is saved to. *)
Definition target_dir (shared_dir : string) (save_dir : option string)
  : string :=
  if truthy save_dir then default shared_dir save_dir else shared_dir.

(** A socket on which eight bytes announce 2 and the two bytes of "hi"
    follow. *)
Definition socket_hi : Socket :=
  mkSocket [x00; x00; x00; x00; x00; x00; x00; x02; x68; x69] false.


(** A serving machine for the samples: one shared file, "shared/a",
    holding "hi"; requests are read as the name "a". *)
Definition sample_disk : gmap string (list byte) :=
  {[ "shared/a" := [x68; x69] ]}.

(** Its one directory is the shared directory itself. *)
Definition sample_disk_dirs : gmap string Z := {[ "shared/" := 4096 ]}.

Definition sample_decode_strip (raw : list byte) : result string :=
  match raw with
  | [] => Ok ""
  | _ :: _ => Ok "a"
  end.





(** A shared directory with a hidden file, a regular file and a
    subdirectory. *)
Definition sample_listing : list string := [".cache"; "a"; "sub"].

Definition sample_shared_disk : gmap string (list byte) :=
  {[ "shared/.cache" := [x00]; "shared/a" := [x68; x69] ]}.

(** * A system of peers *)

(** The message an effect puts on the network. *)
Definition sent_message (e : Effect) : option Message :=
  match e with
  | SendPacket message _ => Some message
  | SendBroadcast message _ => Some message
  | StartTimer _ _ => None
  end.

(** Every message a peer has sent so far. *)
Definition outbox (w : World) : list Message :=
  omap sent_message (effects w).

(** What a peer does by itself: the user publishes or queries, the
    peer starts discovery, a timer expires, a periodic loop takes a
    turn. *)
Inductive local_step (w : World) : World → Prop :=
  | local_publish_files env files r w' :
      publish_files env files w = (w', r) → local_step w w'
  | local_query_files env r w' :
      query_files env w = (w', r) → local_step w w'
  | local_discover_leader env r w' :
      discover_leader env w = (w', r) → local_step w w'
  | local_timer env cb r w' :
      fire_timer env cb w = (w', r) → local_step w w'
  | local_heartbeat env r w' :
      heartbeat_cycle env w = (w', r) → local_step w w'
  | local_send_heartbeats env r w' :
      send_heartbeats_cycle env w = (w', r) → local_step w w'
  | local_monitor_peers env r w' :
      monitor_peers_cycle env w = (w', r) → local_step w w'.

(** A step of a system of peers that all run this code.  Either one
    peer acts by itself, or one peer handles a message that some peer
    of the system has sent: any such message, at any later time, any
    number of times, in any order, with any source address.  Messages
    that no peer has sent are never delivered. *)
Inductive system_step (ws : list World) : list World → Prop :=
  | system_deliver i j wi wj message env a r w' :
      ws !! i = Some wi →
      ws !! j = Some wj →
      message ∈ outbox wj →
      handle_udp_message env message a wi = (w', r) →
      system_step ws (<[i := w']> ws)
  | system_act i wi w' :
      ws !! i = Some wi →
      local_step wi w' →
      system_step ws (<[i := w']> ws).

(** A peer that holds no catalog and has sent nothing, as every peer
    is when it starts. *)
Definition fresh (w : World) : Prop :=
  global_catalog (self w) = ∅ ∧ effects w = [].

(** A property of catalogs that the three writers of the catalog keep:
    the reset, the loop of [handle_publish], the purge of the sweep. *)
Record catalog_property (Q : gmap string (list Entry) → Prop) : Prop := {
  property_empty : Q ∅;
  property_publish :
    ∀ peer_id host port files catalog,
      Q catalog → Q (publish_loop peer_id host port files catalog);
  property_purge :
    ∀ peer_id catalog, Q catalog → Q (purge_catalog peer_id catalog)
}.

(** The catalog a message carries, if it carries one, has the
    property. *)
Definition carries (Q : gmap string (list Entry) → Prop) (m : Message)
  : Prop :=
  ∀ catalog, m_catalog m = Some catalog → Q catalog.

(** The peer's catalog has the property, and so has every catalog it
    has sent. *)
Definition peer_ok (Q : gmap string (list Entry) → Prop) (w : World)
  : Prop :=
  Q (global_catalog (self w)) ∧ Forall (carries Q) (outbox w).

(** A system of two fresh peers: leader ["z"], and follower ["m"] that
    knows where ["z"] is. *)
Definition fresh_leader : World :=
  mkWorld (mkPeer "z" LEADER (Some "z") ∅ ∅ ∅ 0 40026 50026
                  (mkElectionManager false 0)) [].

Definition fresh_follower : World :=
  mkWorld (mkPeer "m" FOLLOWER (Some "z")
                  {[ "z" := mkPeerRecord ("10.0.0.26", 40026) 0 ]} ∅ ∅
                  0 40001 50001 (mkElectionManager false 0)) [].

Definition fresh_pair : list World := [fresh_leader; fresh_follower].

(** A run of the pair: the follower publishes, the leader handles the
    PUBLISH, the follower queries, the leader handles the QUERY_FILES,
    the follower handles the FILE_LIST. *)
Definition follower_published : World :=
  (publish_files env_0 files_h1 fresh_follower).1.

Definition leader_listed : World :=
  (handle_udp_message env_0 (publish_msg "m" (files_dict files_h1) 50001)
                      from_m fresh_leader).1.

Definition follower_asked : World :=
  (query_files env_5 follower_published).1.

Definition leader_answered : World :=
  (handle_udp_message env_5 (query_files_msg "m") from_m leader_listed).1.

Definition follower_informed : World :=
  (handle_udp_message env_5
     (file_list_msg "z" (global_catalog (self leader_listed)))
     from_z follower_asked).1.

Definition pair_informed : list World :=
  [leader_answered; follower_informed].



(** * Properties *)

(** ** Tactics and basic facts *)

(** Unfold the monad so that a handler becomes a function on worlds. *)
Ltac run_monad :=
  cbv [mbind M_bind bind mret M_ret ret this update emit modify get item
       raise send_broadcast send_packet start_timer try_except event print].

Lemma str_lt_not_gt (a b : string) : str_lt a b = true → str_gt a b = false.
Proof.
  unfold str_lt, str_gt, String.ltb. rewrite (String.compare_antisym a b).
  destruct (String.compare b a); simpl; congruence.
Qed.

Lemma str_gt_irrefl (a : string) : str_gt a a = false.
Proof.
  unfold str_gt, String.ltb.
  destruct (String.compare a a) eqn:E; try reflexivity.
  pose proof (String.compare_antisym a a) as H. rewrite E in H.
  discriminate.
Qed.

Lemma str_gt_neq (a b : string) : str_gt a b = true → a ≠ b.
Proof. intros H ->. rewrite str_gt_irrefl in H. discriminate. Qed.

Lemma str_lt_neq (a b : string) : str_lt a b = true → a ≠ b.
Proof. intros H ->. unfold str_lt in H. fold (str_gt b b) in H.
       rewrite str_gt_irrefl in H. discriminate. Qed.

(** The dispatcher hands a message from another sender to the handler
    of its type. *)
Lemma dispatch_election env message a w S :
  m_type message = Some MSG_ELECTION →
  m_sender_id message = Some S →
  S ≠ id (self w) →
  handle_udp_message env message a w = handle_election_message env message w.
Proof.
  intros Ht Hs Hne. unfold handle_udp_message. run_monad.
  rewrite Ht, Hs. rewrite bool_decide_eq_false_2 by congruence.
  reflexivity.
Qed.

(** ** The election *)

Lemma start_election_idle env w :
  election_in_progress (election_manager (self w)) = false →
  start_election env w = (election_started env w, Ok tt).
Proof.
  intros H. unfold start_election, election_started. run_monad.
  rewrite H. simpl. rewrite <- app_assoc. reflexivity.
Qed.

(** C4: an ELECTION from a higher identifier makes the receiver yield
    and broadcast nothing; an ELECTION from a lower identifier makes a
    receiver that is not electing start its own election (it marks the
    election in progress, broadcasts ELECTION and arms the 3 second
    timer); [start_election] does nothing when an election is already in
    progress. *)
Theorem election_message_received env message a w S :
  m_type message = Some MSG_ELECTION →
  m_sender_id message = Some S →
  (str_gt S (id (self w)) = true →
     handle_udp_message env message a w
     = (mkWorld (with_election_in_progress false (self w)) (effects w),
        Ok tt))
  ∧ (str_lt S (id (self w)) = true →
     election_in_progress (election_manager (self w)) = false →
     handle_udp_message env message a w = (election_started env w, Ok tt))
  ∧ (election_in_progress (election_manager (self w)) = true →
     start_election env w = (w, Ok tt)).
Proof.
  intros Ht Hs. repeat split.
  - intros Hgt. rewrite (dispatch_election _ _ _ _ S) by eauto using str_gt_neq.
    unfold handle_election_message. run_monad. rewrite Hs, Hgt. reflexivity.
  - intros Hlt Hidle.
    rewrite (dispatch_election _ _ _ _ S) by eauto using str_lt_neq.
    unfold handle_election_message. run_monad.
    rewrite Hs, (str_lt_not_gt _ _ Hlt), Hlt, Hidle. simpl.
    by apply start_election_idle.
  - intros Hbusy. unfold start_election. run_monad. rewrite Hbusy.
    by destruct w.
Qed.

Lemma election_message_received_witness :
  handle_udp_message env_100 (election_msg "z") from_9
                     (world_m FOLLOWER true)
  = (world_m FOLLOWER false, Ok tt)
  ∧ handle_udp_message env_100 (election_msg "a") from_9
                       (world_m FOLLOWER false)
    = (election_started env_100 (world_m FOLLOWER false), Ok tt)
  ∧ start_election env_100 (world_m FOLLOWER true)
    = (world_m FOLLOWER true, Ok tt).
Proof.
  split; [| split].
  - apply (election_message_received env_100 (election_msg "z") from_9
             (world_m FOLLOWER true) "z"); reflexivity.
  - apply (election_message_received env_100 (election_msg "a") from_9
             (world_m FOLLOWER false) "a"); reflexivity.
  - apply (election_message_received env_100 (election_msg "a") from_9
             (world_m FOLLOWER true) "a"); reflexivity.
Defined.

(** C5: when the decision timer expires during an election the peer
    becomes LEADER with itself as leader, clears the election flag and
    broadcasts, on port 5007, the message of type COORDINATOR whose
    sender_id is its identifier and whose addr is its local IP address
    with its UDP port; nothing else of the peer changes.  When no
    election is in progress the expiry changes nothing and sends
    nothing. *)
Theorem election_timer_expiry env w :
  (election_in_progress (election_manager (self w)) = true →
     fire_timer env cb_check_election_result w
     = (mkWorld
          (mkPeer (id (self w)) LEADER (Some (id (self w)))
                  (peers (self w)) (global_catalog (self w))
                  (last_heartbeats (self w))
                  (last_leader_heartbeat (self w))
                  (udp_port (self w)) (tcp_port (self w))
                  (mkElectionManager false
                     (last_election_time (election_manager (self w)))))
          (effects w
           ++ [SendBroadcast
                 (mkMessage (Some "COORDINATOR") (Some (id (self w)))
                            (Some (get_local_ip env, udp_port (self w)))
                            None None None None None None)
                 5007]),
        Ok tt))
  ∧ (election_in_progress (election_manager (self w)) = false →
     fire_timer env cb_check_election_result w = (w, Ok tt)).
Proof.
  split; intros H; unfold fire_timer, check_election_result; run_monad;
    rewrite H.
  - unfold declare_victory. run_monad. reflexivity.
  - by destruct w.
Qed.

Lemma election_timer_expiry_witness :
  fire_timer env_100 cb_check_election_result (world_m FOLLOWER true)
  = (mkWorld
       (mkPeer "m" LEADER (Some "m") ∅ ∅ ∅ 0 40001 50001
               (mkElectionManager false 0))
       [SendBroadcast
          (mkMessage (Some "COORDINATOR") (Some "m")
                     (Some ("10.0.0.1", 40001))
                     None None None None None None)
          5007],
     Ok tt)
  ∧ fire_timer env_100 cb_check_election_result (world_m FOLLOWER false)
    = (world_m FOLLOWER false, Ok tt).
Proof.
  split.
  - apply (proj1 (election_timer_expiry env_100 (world_m FOLLOWER true))).
    reflexivity.
  - apply (proj2 (election_timer_expiry env_100 (world_m FOLLOWER false))).
    reflexivity.
Defined.

(** ** COORDINATOR and HEARTBEAT *)

(** C6: a COORDINATOR from another peer, received in any role, makes
    the receiver a FOLLOWER of the sender, clears the election flag,
    records the announced address (when the message carries one) in the
    directory and empties the catalog. *)
Theorem coordinator_received env message a w new_leader :
  m_type message = Some MSG_COORDINATOR →
  m_sender_id message = Some new_leader →
  new_leader ≠ id (self w) →
  handle_udp_message env message a w
  = (coordinator_accepted env new_leader (m_addr message) w, Ok tt).
Proof.
  intros Ht Hs Hne. unfold handle_udp_message. run_monad.
  rewrite Ht, Hs. rewrite bool_decide_eq_false_2 by congruence. simpl.
  unfold handle_coordinator, coordinator_accepted. run_monad.
  rewrite Hs. by destruct (m_addr message).
Qed.

Lemma coordinator_received_witness :
  handle_udp_message env_100 (coordinator_msg "z" from_9) from_9
                     (world_m LEADER true)
  = (coordinator_accepted env_100 "z" (Some from_9) (world_m LEADER true),
     Ok tt).
Proof.
  apply (coordinator_received env_100 (coordinator_msg "z" from_9) from_9
           (world_m LEADER true) "z"); [reflexivity | reflexivity |].
  intros H. discriminate H.
Defined.

Lemma note_peer_heartbeat_keeps env message w :
  ∃ w', note_peer_heartbeat env message w = (w', Ok tt)
        ∧ state (self w') = state (self w)
        ∧ leader_id (self w') = leader_id (self w)
        ∧ id (self w') = id (self w).
Proof.
  unfold note_peer_heartbeat. run_monad.
  destruct (truthy _); [| by eexists].
  destruct (py_or _ _); by eexists.
Qed.

(** C7: a LEADER that receives a LEADER-role HEARTBEAT from a strictly
    higher identifier becomes a FOLLOWER of the sender; when the
    sender's identifier is not higher, it remains LEADER. *)
Theorem leader_heartbeat_received env message a w sender_id :
  state (self w) = LEADER →
  m_type message = Some MSG_HEARTBEAT →
  m_role message = Some (role_str LEADER) →
  m_sender_id message = Some sender_id →
  (str_gt sender_id (id (self w)) = true →
     handle_udp_message env message a w
     = (stepped_down env sender_id w, Ok tt))
  ∧ (str_gt sender_id (id (self w)) = false →
     ∃ w', handle_udp_message env message a w = (w', Ok tt)
           ∧ state (self w') = LEADER
           ∧ leader_id (self w') = leader_id (self w)).
Proof.
  intros Hst Ht Hr Hs. split; intros Hgt.
  - unfold handle_udp_message. run_monad. rewrite Ht, Hs.
    rewrite bool_decide_eq_false_2
      by (intros [= E]; by apply str_gt_neq in Hgt).
    simpl. unfold handle_heartbeat. run_monad.
    rewrite Hst. simpl. rewrite Hst, Hr, Hs. simpl. rewrite Hgt.
    reflexivity.
  - unfold handle_udp_message. run_monad. rewrite Ht, Hs.
    case_bool_decide; [by exists w; destruct w |].
    simpl. unfold handle_heartbeat. run_monad.
    rewrite Hst. simpl. rewrite Hst, Hr, Hs. simpl. rewrite Hgt.
    destruct (note_peer_heartbeat_keeps env message w)
      as (w' & E & E1 & E2 & _).
    exists w'. by rewrite E, E1, E2.
Qed.

Lemma leader_heartbeat_received_witness :
  handle_udp_message env_100 (leader_heartbeat_msg "z") from_9
                     (world_m LEADER false)
  = (stepped_down env_100 "z" (world_m LEADER false), Ok tt)
  ∧ ∃ w', handle_udp_message env_100 (leader_heartbeat_msg "a") from_9
                             (world_m LEADER false) = (w', Ok tt)
          ∧ state (self w') = LEADER
          ∧ leader_id (self w') = leader_id (self (world_m LEADER false)).
Proof.
  split.
  - apply (leader_heartbeat_received env_100 (leader_heartbeat_msg "z")
             from_9 (world_m LEADER false) "z"); reflexivity.
  - apply (leader_heartbeat_received env_100 (leader_heartbeat_msg "a")
             from_9 (world_m LEADER false) "a"); reflexivity.
Defined.

(** ** The dispatcher *)

(** C9: a message whose sender_id is the receiver's own identifier is
    returned from without any handler running: the peer and the effects
    are unchanged.  This covers the COORDINATOR and the leader HEARTBEAT
    a peer broadcasts itself. *)
Theorem own_message_ignored env a w :
  (∀ message, m_sender_id message = Some (id (self w)) →
     handle_udp_message env message a w = (w, Ok tt))
  ∧ (∀ announced,
       handle_udp_message env (coordinator_msg (id (self w)) announced) a w
       = (w, Ok tt))
  ∧ handle_udp_message env (leader_heartbeat_msg (id (self w))) a w
    = (w, Ok tt).
Proof.
  assert (∀ message, m_sender_id message = Some (id (self w)) →
            handle_udp_message env message a w = (w, Ok tt)) as H.
  { intros message Hs. unfold handle_udp_message. run_monad.
    rewrite Hs, bool_decide_eq_true_2 by done. reflexivity. }
  split; [exact H |]. split; [intros announced |]; by apply H.
Qed.

Lemma own_message_ignored_witness :
  handle_udp_message env_100 (coordinator_msg "m" from_9) from_9
    (victory_declared env_100 (world_m FOLLOWER true))
  = (victory_declared env_100 (world_m FOLLOWER true), Ok tt).
Proof.
  apply (proj1 (own_message_ignored env_100 from_9
                  (victory_declared env_100 (world_m FOLLOWER true)))).
  reflexivity.
Defined.

(** ** The UDP receive loop *)

(** C1, as the code has it: a datagram that does not decode is logged
    and dropped, and the receive loop is left; the peer is unchanged and
    no datagram behind the bad one is processed. *)
Theorem undecodable_datagram_breaks_loop {W : Type}
    (json_loads : list byte → result Message)
    (callback : Message → Addr → M W unit)
    (data : list byte) (from : Addr) (inbox : list Recv)
    (w : W) (out : list Line) (e : exn) :
  json_loads data = Raise e →
  listen json_loads callback (recv_data data from :: inbox) w out
  = mkListener w (out ++ [Error_receiving_UDP_packet e]) Broken.
Proof. intros H. simpl. by rewrite H. Qed.

Lemma undecodable_datagram_breaks_loop_witness :
  listen sample_json_loads (handle_udp_message env_100)
         [bad_datagram; good_datagram] (world_m FOLLOWER true) []
  = mkListener (world_m FOLLOWER true)
               [Error_receiving_UDP_packet JSONDecodeError] Broken.
Proof.
  apply (undecodable_datagram_breaks_loop sample_json_loads
           (handle_udp_message env_100) [] from_9 [good_datagram]
           (world_m FOLLOWER true) [] JSONDecodeError).
  reflexivity.
Defined.

(** The same end awaits a datagram that decodes but makes the handler
    raise, such as a COORDINATOR without sender_id. *)
Lemma raising_callback_breaks_loop {W : Type}
    (json_loads : list byte → result Message)
    (callback : Message → Addr → M W unit)
    (data : list byte) (from : Addr) (inbox : list Recv)
    (w w' : W) (out : list Line) (message : Message) (e : exn) :
  json_loads data = Ok message →
  callback message from w = (w', Raise e) →
  listen json_loads callback (recv_data data from :: inbox) w out
  = mkListener w' (out ++ [Error_receiving_UDP_packet e]) Broken.
Proof. intros Hd Hc. simpl. by rewrite Hd, Hc. Qed.

Example coordinator_without_sender_raises :
  handle_udp_message env_100
    (mkMessage (Some MSG_COORDINATOR) None (Some from_9) None None None
               None None None)
    from_9 (world_m FOLLOWER true)
  = (world_m FOLLOWER true, Raise (KeyError "sender_id")).
Proof. reflexivity. Qed.

(** As long as datagrams decode and the handler returns, the loop goes
    on. *)
Lemma handled_datagram_continues {W : Type}
    (json_loads : list byte → result Message)
    (callback : Message → Addr → M W unit)
    (data : list byte) (from : Addr) (inbox : list Recv)
    (w w' : W) (out : list Line) (message : Message) :
  json_loads data = Ok message →
  callback message from w = (w', Ok tt) →
  listen json_loads callback (recv_data data from :: inbox) w out
  = listen json_loads callback inbox w' out.
Proof. intros Hd Hc. simpl. by rewrite Hd, Hc. Qed.

(** C1 as stated fails: after the undecodable datagram the loop is
    broken, and the ELECTION behind it, which would have made the peer
    yield, is never handled. *)
Lemma undecodable_datagram_counterexample :
  ¬ logged_and_skipped sample_json_loads (handle_udp_message env_100)
      [] from_9 [good_datagram] (world_m FOLLOWER true) [].
Proof.
  intros H. specialize (H JSONDecodeError eq_refl).
  vm_compute in H. discriminate H.
Qed.

(** ** The catalog under PUBLISH *)

Lemma publish_one_lookup pid host port
    (cat : gmap string (list Entry)) f md g :
  publish_one pid host port cat (f, md) !! g
  = if decide (f = g)
    then Some (filter (λ e, e_peer_id e ≠ pid) (default [] (cat !! f))
               ++ [published_entry pid host port md])
    else cat !! g.
Proof.
  unfold publish_one, published_entry.
  destruct (cat !! f) as [es|] eqn:E; case_decide; subst;
    rewrite ?lookup_insert_eq, ?lookup_insert_ne by done; simpl;
    rewrite ?lookup_insert_eq, ?lookup_insert_ne, ?E by done; simpl;
    rewrite ?lookup_insert_eq, ?lookup_insert_ne, ?E by done; done.
Qed.

Lemma publish_items_lookup pid host port items :
  NoDup items.*1 →
  ∀ (cat : gmap string (list Entry)) f,
    (∀ md, (f, md) ∈ items →
       foldl (publish_one pid host port) cat items !! f
       = Some (filter (λ e, e_peer_id e ≠ pid) (default [] (cat !! f))
               ++ [published_entry pid host port md]))
    ∧ (f ∉ items.*1 →
       foldl (publish_one pid host port) cat items !! f = cat !! f).
Proof.
  induction items as [| [f' md'] items IH]; intros Hnd cat f.
  - split; [intros md H; by apply elem_of_nil in H | done].
  - apply NoDup_cons in Hnd as [Hfresh Hnd]. simpl in Hfresh.
    pose proof (IH Hnd (publish_one pid host port cat (f', md')) f)
      as [IHin IHout].
    cbn [foldl]. split.
    + intros md [Heq | Hin]%elem_of_cons.
      * injection Heq as Ef Em. subst f' md'. rewrite IHout by done.
        rewrite publish_one_lookup. by rewrite decide_True.
      * assert (f' ≠ f) as Hne.
        { intros ->. apply Hfresh.
          apply list_elem_of_fmap. by exists (f, md). }
        rewrite (IHin md Hin), publish_one_lookup.
        by rewrite decide_False.
    + intros Hout. apply not_elem_of_cons in Hout as [Hne Hout].
      rewrite IHout by done. rewrite publish_one_lookup.
      by rewrite decide_False.
Qed.

(** The catalog after the loop of [handle_publish], file by file. *)
Lemma publish_loop_lookup pid host port files
    (cat : gmap string (list Entry)) f :
  publish_loop pid host port files cat !! f
  = match files !! f with
    | Some md =>
        Some (filter (λ e, e_peer_id e ≠ pid) (default [] (cat !! f))
              ++ [published_entry pid host port md])
    | None => cat !! f
    end.
Proof.
  unfold publish_loop.
  pose proof (publish_items_lookup pid host port (map_to_list files)
                (NoDup_fst_map_to_list files) cat f) as [Hin Hout].
  destruct (files !! f) as [md|] eqn:E.
  - apply Hin. by apply elem_of_map_to_list.
  - apply Hout. intros [[f' md] [-> H]]%list_elem_of_fmap.
    apply elem_of_map_to_list in H. simpl in E. congruence.
Qed.

Lemma dict_of_names_lookup names f :
  dict_of_names names !! f
  = if bool_decide (f ∈ names)
    then Some (mkMetadata (Some 0) None) else None.
Proof.
  unfold dict_of_names.
  assert (∀ d : gmap string Metadata,
            foldl (λ d f, <[f := mkMetadata (Some 0) None]> d) d names !! f
            = if bool_decide (f ∈ names)
              then Some (mkMetadata (Some 0) None) else d !! f) as H.
  { induction names as [| n names IH]; intros d; cbn [foldl].
    - rewrite bool_decide_eq_false_2; [done | apply not_elem_of_nil].
    - rewrite IH. destruct (decide (f ∈ names)) as [Hin | Hout].
      + rewrite !bool_decide_eq_true_2; [done | by right | done].
      + rewrite (bool_decide_eq_false_2 _ Hout).
        destruct (decide (n = f)) as [-> | Hne].
        * rewrite lookup_insert_eq, bool_decide_eq_true_2; [done | by left].
        * rewrite lookup_insert_ne by done.
          rewrite bool_decide_eq_false_2; [done |].
          intros [? | ?]%elem_of_cons; congruence. }
  by rewrite H, lookup_empty.
Qed.

(** A PUBLISH carrying its three fields, handled by a leader. *)
Lemma handle_publish_leader env message a w sender files port :
  state (self w) = LEADER →
  m_sender_id message = Some sender →
  m_files message = Some files →
  m_tcp_port message = Some port →
  handle_publish env message a w
  = (mkWorld
       (with_global_catalog
          (publish_loop sender (publish_host env a) port
             (match files with
              | files_list names => dict_of_names names
              | files_dict d => d
              end)
             (global_catalog (self w)))
          (self w))
       (effects w), Ok tt).
Proof.
  intros Hst Hs Hf Hp. unfold handle_publish. run_monad.
  rewrite Hst, Hs, Hf, Hp. reflexivity.
Qed.

(** C8: a PUBLISH whose file set is a plain list of names is handled
    as the PUBLISH whose file set maps each listed name to size 0 and a
    null hash; at a leader every listed name ends with an entry of the
    publisher with size 0 and no hash, behind the entries of the other
    peers. *)
Theorem list_form_publish env message a w names :
  m_files message = Some (files_list names) →
  handle_publish env message a w
  = handle_publish env
      (with_files (files_dict (dict_of_names names)) message) a w
  ∧ (∀ f, dict_of_names names !! f
          = if bool_decide (f ∈ names)
            then Some (mkMetadata (Some 0) None) else None)
  ∧ (∀ sender port,
       state (self w) = LEADER →
       m_sender_id message = Some sender →
       m_tcp_port message = Some port →
       ∃ w', handle_publish env message a w = (w', Ok tt)
             ∧ ∀ f, f ∈ names →
                 global_catalog (self w') !! f
                 = Some (filter (λ e, e_peer_id e ≠ sender)
                                (default [] (global_catalog (self w) !! f))
                         ++ [mkEntry sender (publish_host env a) port
                                     0 None])).
Proof.
  intros Hf. split; [| split].
  - unfold handle_publish, with_files. run_monad. simpl. rewrite Hf.
    destruct (bool_decide _); [| done].
    destruct (m_sender_id message); [| done]. simpl.
    by destruct (m_tcp_port message).
  - apply dict_of_names_lookup.
  - intros sender port Hst Hs Hp.
    rewrite (handle_publish_leader env message a w sender _ port Hst Hs Hf Hp).
    eexists. split; [done |]. intros f Hin. simpl.
    rewrite publish_loop_lookup, dict_of_names_lookup.
    by rewrite bool_decide_eq_true_2.
Qed.

Lemma list_form_publish_witness :
  ∃ w', handle_publish env_100
          (publish_msg "x" (files_list names_ab) 50009) (Some from_9)
          (world_m LEADER false) = (w', Ok tt)
        ∧ ∀ f, f ∈ names_ab →
            global_catalog (self w') !! f
            = Some (filter (λ e, e_peer_id e ≠ "x")
                      (default []
                         (global_catalog (self (world_m LEADER false)) !! f))
                    ++ [mkEntry "x" (publish_host env_100 (Some from_9))
                                50009 0 None]).
Proof.
  destruct (list_form_publish env_100
              (publish_msg "x" (files_list names_ab) 50009) (Some from_9)
              (world_m LEADER false) names_ab eq_refl) as (_ & _ & H).
  exact (H "x" 50009 eq_refl eq_refl eq_refl).
Defined.

(** ** The catalog invariant *)

Lemma filter_keeps_one_per_peer (P : Entry → Prop)
    `{∀ e, Decision (P e)} (es : list Entry) :
  NoDup (e_peer_id <$> es) → NoDup (e_peer_id <$> filter P es).
Proof.
  induction es as [| e es IH]; [done |].
  rewrite fmap_cons, NoDup_cons. intros [Hfresh Hnd].
  rewrite filter_cons. case_decide; [| by apply IH].
  rewrite fmap_cons, NoDup_cons. split; [| by apply IH].
  intros (e' & Heq & Hin)%list_elem_of_fmap.
  apply list_elem_of_filter in Hin as [_ Hin].
  apply Hfresh. apply list_elem_of_fmap. by exists e'.
Qed.

Lemma filter_removes_peer pid (es : list Entry) :
  pid ∉ e_peer_id <$> filter (λ e, e_peer_id e ≠ pid) es.
Proof.
  intros (e & Heq & Hin)%list_elem_of_fmap.
  apply list_elem_of_filter in Hin as [Hne _]. by subst.
Qed.

Lemma replaced_entry_one_per_peer pid (es : list Entry) (e : Entry) :
  e_peer_id e = pid →
  NoDup (e_peer_id <$> es) →
  NoDup (e_peer_id <$> (filter (λ e, e_peer_id e ≠ pid) es ++ [e])).
Proof.
  intros He Hnd. rewrite fmap_app. apply NoDup_app. split; [| split].
  - by apply filter_keeps_one_per_peer.
  - intros x Hx [-> | []%elem_of_nil]%elem_of_cons.
    rewrite He in Hx. by apply filter_removes_peer in Hx.
  - apply NoDup_singleton.
Qed.

Lemma publish_loop_invariant pid host port files cat :
  one_entry_per_peer cat →
  one_entry_per_peer (publish_loop pid host port files cat).
Proof.
  intros Hinv f es. rewrite publish_loop_lookup.
  destruct (files !! f) as [md|]; [| by apply Hinv].
  intros [= <-]. apply replaced_entry_one_per_peer; [done |].
  destruct (cat !! f) as [es|] eqn:E; simpl; [by eapply Hinv | constructor].
Qed.

(** ** The catalog under the liveness sweep *)

Lemma purge_one_lookup pid (cat : gmap string (list Entry)) f g :
  purge_one pid cat f !! g
  = if decide (f = g) then purged pid (cat !! f) else cat !! g.
Proof.
  unfold purge_one, purged. rewrite lookup_insert_eq. simpl.
  destruct (filter _ _) as [| e es]; case_decide; subst;
    rewrite ?lookup_delete_eq, ?lookup_delete_ne,
            ?lookup_insert_eq, ?lookup_insert_ne by done; done.
Qed.

Lemma purged_idemp pid o : purged pid (purged pid o) = purged pid o.
Proof.
  unfold purged at 2 3.
  destruct (filter _ (default [] o)) as [| e es] eqn:E; [done |].
  unfold purged. simpl.
  assert (filter (λ e, e_peer_id e ≠ pid) (e :: es) = e :: es) as ->;
    [| done].
  rewrite <- E. clear E.
  induction (default [] o) as [| x xs IH]; [done |].
  rewrite filter_cons. case_decide; [| done].
  rewrite filter_cons, decide_True by done. by rewrite IH.
Qed.

Lemma purge_keys_lookup pid keys :
  ∀ (cat : gmap string (list Entry)) g,
    foldl (purge_one pid) cat keys !! g
    = if decide (g ∈ keys) then purged pid (cat !! g) else cat !! g.
Proof.
  induction keys as [| k keys IH]; intros cat g; cbn [foldl].
  - rewrite decide_False; [done | apply not_elem_of_nil].
  - rewrite IH, !purge_one_lookup.
    destruct (decide (k = g)) as [-> | Hne].
    + rewrite (decide_True (P := g ∈ g :: keys)) by by left.
      case_decide; [apply purged_idemp | done].
    + destruct (decide (g ∈ keys)) as [Hin | Hout].
      * by rewrite decide_True by by right.
      * rewrite decide_False; [done |].
        intros [? | ?]%elem_of_cons; congruence.
Qed.

(** The catalog after the purge of one peer, file by file. *)
Lemma purge_catalog_lookup pid (cat : gmap string (list Entry)) g :
  purge_catalog pid cat !! g = purged pid (cat !! g).
Proof.
  unfold purge_catalog. rewrite purge_keys_lookup.
  case_decide as Hin; [done |].
  destruct (cat !! g) as [es|] eqn:E; [| done].
  exfalso. apply Hin. apply list_elem_of_fmap.
  exists (g, es). split; [done | by apply elem_of_map_to_list].
Qed.

Lemma purged_Some pid o es :
  purged pid o = Some es →
  es = filter (λ e, e_peer_id e ≠ pid) (default [] o).
Proof.
  unfold purged. destruct (filter _ _); [done | congruence].
Qed.

Lemma purge_catalog_invariant pid cat :
  one_entry_per_peer cat → one_entry_per_peer (purge_catalog pid cat).
Proof.
  intros Hinv f es. rewrite purge_catalog_lookup.
  intros ->%purged_Some. apply filter_keeps_one_per_peer.
  destruct (cat !! f) as [es|] eqn:E; simpl; [by eapply Hinv | constructor].
Qed.

Lemma remove_dead_peers_invariant dead p :
  one_entry_per_peer (global_catalog p) →
  one_entry_per_peer (global_catalog (foldl remove_dead_peer p dead)).
Proof.
  revert p. induction dead as [| d dead IH]; intros p Hinv; [done |].
  cbn [foldl]. apply IH. by apply purge_catalog_invariant.
Qed.

(** ** Handlers that leave the catalog alone *)

Ltac frame_catalog :=
  run_monad;
  repeat first [ progress simpl | case_match | case_bool_decide
               | progress simplify_eq ];
  try done.

Lemma start_election_catalog env w :
  global_catalog (self (start_election env w).1)
  = global_catalog (self w).
Proof. unfold start_election. frame_catalog. Qed.

Lemma handle_election_message_catalog env message w :
  global_catalog (self (handle_election_message env message w).1)
  = global_catalog (self w).
Proof.
  unfold handle_election_message. run_monad.
  destruct (m_sender_id message); [| done]. simpl.
  destruct (str_gt _ _); [done |]. destruct (str_lt _ _); [| done].
  destruct (negb _); [apply start_election_catalog | done].
Qed.

Lemma check_election_result_catalog env w :
  global_catalog (self (check_election_result env w).1)
  = global_catalog (self w).
Proof. unfold check_election_result, declare_victory. frame_catalog. Qed.

Lemma check_discovery_timeout_catalog env w :
  global_catalog (self (check_discovery_timeout env w).1)
  = global_catalog (self w).
Proof.
  unfold check_discovery_timeout. run_monad.
  destruct (leader_id _); [done | apply start_election_catalog].
Qed.

Lemma handle_discovery_catalog env message a w :
  global_catalog (self (handle_discovery env message a w).1)
  = global_catalog (self w).
Proof. unfold handle_discovery. frame_catalog. Qed.

Lemma handle_discovery_response_catalog env message a w :
  global_catalog (self (handle_discovery_response env message a w).1)
  = global_catalog (self w).
Proof. unfold handle_discovery_response. frame_catalog. Qed.

Lemma handle_heartbeat_catalog env message w :
  global_catalog (self (handle_heartbeat env message w).1)
  = global_catalog (self w).
Proof. unfold handle_heartbeat, note_peer_heartbeat. frame_catalog. Qed.

Lemma handle_query_files_catalog env message a w :
  global_catalog (self (handle_query_files env message a w).1)
  = global_catalog (self w).
Proof. unfold handle_query_files. frame_catalog. Qed.

Lemma heartbeat_cycle_catalog env w :
  global_catalog (self (heartbeat_cycle env w).1)
  = global_catalog (self w).
Proof.
  unfold heartbeat_cycle. run_monad.
  repeat case_bool_decide; try done;
    destruct (truthy _); simpl; try done.
  by rewrite start_election_catalog.
Qed.

(** ** Handlers that write the catalog *)

Lemma handle_publish_invariant env message a w :
  one_entry_per_peer (global_catalog (self w)) →
  one_entry_per_peer (global_catalog (self (handle_publish env message a w).1)).
Proof.
  intros Hinv. unfold handle_publish. run_monad.
  case_bool_decide; [| done].
  destruct (m_sender_id message); [| done]. simpl.
  destruct (m_files message); [| done]. simpl.
  destruct (m_tcp_port message); [| done]. simpl.
  by apply publish_loop_invariant.
Qed.

Lemma handle_coordinator_invariant env message w :
  one_entry_per_peer (global_catalog (self w)) →
  one_entry_per_peer (global_catalog (self (handle_coordinator env message w).1)).
Proof.
  intros Hinv. unfold handle_coordinator. run_monad.
  destruct (m_sender_id message); [| done]. simpl.
  destruct (m_addr message); simpl; intros f es; by rewrite lookup_empty.
Qed.

Lemma handle_file_list_invariant env message w :
  (∀ catalog, m_catalog message = Some catalog → one_entry_per_peer catalog) →
  one_entry_per_peer (global_catalog (self w)) →
  one_entry_per_peer (global_catalog (self (handle_file_list env message w).1)).
Proof.
  intros Hsnap Hinv. unfold handle_file_list. run_monad.
  destruct (m_catalog message) as [c|]; [| done]. simpl. by apply Hsnap.
Qed.

Lemma monitor_peers_cycle_invariant env w :
  one_entry_per_peer (global_catalog (self w)) →
  one_entry_per_peer (global_catalog (self (monitor_peers_cycle env w).1)).
Proof.
  intros Hinv. unfold monitor_peers_cycle. run_monad.
  case_bool_decide; [| done]. simpl. by apply remove_dead_peers_invariant.
Qed.

Lemma handle_udp_message_invariant env message a w :
  snapshot_well_formed message →
  one_entry_per_peer (global_catalog (self w)) →
  one_entry_per_peer
    (global_catalog (self (handle_udp_message env message a w).1)).
Proof.
  intros Hsnap Hinv. unfold handle_udp_message. run_monad.
  repeat (case_bool_decide; [try done |]); simpl; [..| done].
  - by rewrite handle_discovery_catalog.
  - by rewrite handle_discovery_response_catalog.
  - by rewrite handle_heartbeat_catalog.
  - unfold handle_election. by rewrite handle_election_message_catalog.
  - by apply handle_coordinator_invariant.
  - by apply handle_publish_invariant.
  - by rewrite handle_query_files_catalog.
  - apply handle_file_list_invariant; [| done]. by apply Hsnap.
Qed.

Lemma publish_files_invariant env files w :
  one_entry_per_peer (global_catalog (self w)) →
  one_entry_per_peer (global_catalog (self (publish_files env files w).1)).
Proof.
  intros Hinv. unfold publish_files. run_monad.
  destruct (negb _); [done |]. case_bool_decide; [done |].
  case_match; [done |]. case_bool_decide; [| done].
  by apply handle_publish_invariant.
Qed.

Lemma step_invariant w w' :
  step w w' →
  one_entry_per_peer (global_catalog (self w)) →
  one_entry_per_peer (global_catalog (self w')).
Proof.
  intros Hstep Hinv.
  destruct Hstep as [env message a r w' Hsnap E | env files r w' E
                    | env r w' E | env r w' E | env cb r w' E
                    | env r w' E | env r w' E | env r w' E];
    apply (f_equal fst) in E; simpl in E; subst w'.
  - by apply handle_udp_message_invariant.
  - by apply publish_files_invariant.
  - unfold query_files. frame_catalog.
  - unfold discover_leader. frame_catalog.
  - destruct cb; simpl.
    + by rewrite check_discovery_timeout_catalog.
    + by rewrite check_election_result_catalog.
  - by rewrite heartbeat_cycle_catalog.
  - unfold send_heartbeats_cycle. frame_catalog.
  - by apply monitor_peers_cycle_invariant.
Qed.

(** ** The catalogs of a system of peers *)

Section CatalogProperty.
Variable Q : gmap string (list Entry) → Prop.
Hypothesis HQ : catalog_property Q.

Lemma peer_ok_sent p effs e :
  peer_ok Q (mkWorld p effs) →
  (∀ m, sent_message e = Some m → carries Q m) →
  peer_ok Q (mkWorld p (effs ++ [e])).
Proof.
  intros [Hcat Hout] He. split; [done |]. unfold outbox in *. simpl in *.
  rewrite omap_app. apply Forall_app. split; [done |]. simpl.
  destruct (sent_message e) as [m|]; [| constructor].
  constructor; [by apply He | constructor].
Qed.

Lemma peer_ok_catalog p p' effs :
  peer_ok Q (mkWorld p effs) →
  Q (global_catalog p') →
  peer_ok Q (mkWorld p' effs).
Proof. intros [_ Hout] Hcat. by split. Qed.

Lemma peer_ok_eta w : peer_ok Q w → peer_ok Q (mkWorld (self w) (effects w)).
Proof. by destruct w. Qed.

Ltac keep_ok :=
  match goal with H : peer_ok Q ?w |- _ =>
    pose proof (proj1 H); apply peer_ok_eta in H end;
  repeat first
    [ done
    | apply peer_ok_sent;
        [| simpl; intros ? [= <-] ? Hc; simpl in Hc;
           first [discriminate Hc | by simplify_eq]]
    | eapply peer_ok_catalog; [eassumption | by simpl] ].

Lemma start_election_ok env w :
  peer_ok Q w → peer_ok Q (start_election env w).1.
Proof.
  intros Hw. unfold start_election. run_monad.
  destruct (election_in_progress _); simpl; [done |]. keep_ok.
Qed.

Lemma handle_election_message_ok env message w :
  peer_ok Q w → peer_ok Q (handle_election_message env message w).1.
Proof.
  intros Hw. unfold handle_election_message. run_monad.
  destruct (m_sender_id message); [| done]. simpl.
  destruct (str_gt _ _); [keep_ok |]. destruct (str_lt _ _); [| done].
  destruct (negb _); [by apply start_election_ok | done].
Qed.

Lemma check_election_result_ok env w :
  peer_ok Q w → peer_ok Q (check_election_result env w).1.
Proof.
  intros Hw. unfold check_election_result, declare_victory. run_monad.
  destruct (election_in_progress _); simpl; [| done]. keep_ok.
Qed.

Lemma check_discovery_timeout_ok env w :
  peer_ok Q w → peer_ok Q (check_discovery_timeout env w).1.
Proof.
  intros Hw. unfold check_discovery_timeout. run_monad.
  destruct (leader_id _); [done | by apply start_election_ok].
Qed.

Lemma discover_leader_ok env w :
  peer_ok Q w → peer_ok Q (discover_leader env w).1.
Proof. intros Hw. unfold discover_leader. run_monad. simpl. keep_ok. Qed.

Lemma handle_discovery_ok env message a w :
  peer_ok Q w → peer_ok Q (handle_discovery env message a w).1.
Proof.
  intros Hw. unfold handle_discovery. run_monad.
  case_bool_decide; [| done].
  destruct (m_sender_id message); [| done]. simpl. keep_ok.
Qed.

Lemma handle_discovery_response_ok env message a w :
  peer_ok Q w → peer_ok Q (handle_discovery_response env message a w).1.
Proof.
  intros Hw. unfold handle_discovery_response. run_monad.
  destruct (m_leader_id message); [| done]. simpl.
  destruct a; simpl; keep_ok.
Qed.

Lemma note_peer_heartbeat_ok env message w :
  peer_ok Q w → peer_ok Q (note_peer_heartbeat env message w).1.
Proof.
  intros Hw. unfold note_peer_heartbeat. run_monad.
  destruct (truthy _); [| done].
  destruct (py_or _ _); [simpl; keep_ok | done].
Qed.

Lemma bind_ok {A B} (c : M World A) (k : A → M World B) w :
  peer_ok Q (c w).1 →
  (∀ a w1, peer_ok Q w1 → peer_ok Q (k a w1).1) →
  peer_ok Q ((c ≫= k) w).1.
Proof.
  intros Hc Hk. unfold mbind, M_bind, bind.
  destruct (c w) as [w1 [a | e]]; simpl in *; auto.
Qed.

Lemma handle_heartbeat_ok env message w :
  peer_ok Q w → peer_ok Q (handle_heartbeat env message w).1.
Proof.
  intros Hw. unfold handle_heartbeat.
  apply bind_ok; [done |]. clear w Hw. intros p w Hw.
  apply bind_ok.
  { destruct (_ && _); [run_monad; simpl; keep_ok | done]. }
  clear w Hw. intros [] w Hw.
  apply bind_ok; [done |]. clear p w Hw. intros p w Hw.
  case_bool_decide; [| done].
  case_bool_decide; [| by apply note_peer_heartbeat_ok].
  destruct (m_sender_id message); [| done].
  destruct (str_gt _ _); [| by apply note_peer_heartbeat_ok].
  run_monad. simpl. keep_ok.
Qed.

Lemma handle_coordinator_ok env message w :
  peer_ok Q w → peer_ok Q (handle_coordinator env message w).1.
Proof.
  intros Hw. unfold handle_coordinator. run_monad.
  destruct (m_sender_id message); [| done]. simpl.
  apply peer_ok_eta in Hw.
  destruct (m_addr message); simpl;
    (eapply peer_ok_catalog; [eassumption | apply (property_empty Q HQ)]).
Qed.

Lemma handle_publish_ok env message a w :
  peer_ok Q w → peer_ok Q (handle_publish env message a w).1.
Proof.
  intros Hw. unfold handle_publish. run_monad.
  case_bool_decide; [| done].
  destruct (m_sender_id message); [| done]. simpl.
  destruct (m_files message); [| done]. simpl.
  destruct (m_tcp_port message); [| done]. simpl.
  pose proof (proj1 Hw). apply peer_ok_eta in Hw.
  eapply peer_ok_catalog; [eassumption |]. simpl.
  by apply (property_publish Q HQ).
Qed.

Lemma handle_query_files_ok env message a w :
  peer_ok Q w → peer_ok Q (handle_query_files env message a w).1.
Proof.
  intros Hw. unfold handle_query_files. run_monad.
  case_bool_decide; [| done].
  destruct (m_sender_id message); [| done]. simpl. keep_ok.
Qed.

Lemma handle_file_list_ok env message w :
  carries Q message →
  peer_ok Q w → peer_ok Q (handle_file_list env message w).1.
Proof.
  intros Hm Hw. unfold handle_file_list. run_monad.
  destruct (m_catalog message) as [catalog|] eqn:E; [| done]. simpl.
  apply peer_ok_eta in Hw.
  eapply peer_ok_catalog; [eassumption | by apply Hm].
Qed.

Lemma handle_udp_message_ok env message a w :
  carries Q message →
  peer_ok Q w → peer_ok Q (handle_udp_message env message a w).1.
Proof.
  intros Hm Hw. unfold handle_udp_message. run_monad.
  repeat (case_bool_decide; [try done |]); simpl; [..| done].
  - by apply handle_discovery_ok.
  - by apply handle_discovery_response_ok.
  - by apply handle_heartbeat_ok.
  - by apply handle_election_message_ok.
  - by apply handle_coordinator_ok.
  - by apply handle_publish_ok.
  - by apply handle_query_files_ok.
  - by apply handle_file_list_ok.
Qed.

Lemma remove_dead_peers_keep dead p :
  Q (global_catalog p) → Q (global_catalog (foldl remove_dead_peer p dead)).
Proof.
  revert p. induction dead as [| d dead IH]; intros p Hp; [done |].
  cbn [foldl]. apply IH. by apply (property_purge Q HQ).
Qed.

Lemma local_step_ok w w' : local_step w w' → peer_ok Q w → peer_ok Q w'.
Proof.
  intros Hstep Hw.
  destruct Hstep as [env files r w' E | env r w' E | env r w' E
                    | env cb r w' E | env r w' E | env r w' E
                    | env r w' E];
    apply (f_equal fst) in E; simpl in E; subst w'.
  - unfold publish_files. run_monad.
    destruct (negb _); [done |]. case_bool_decide; [done |].
    case_match; [simpl; keep_ok |]. case_bool_decide; [| done].
    by apply handle_publish_ok.
  - unfold query_files. run_monad.
    destruct (negb _); [done |]. case_match; [simpl; keep_ok | done].
  - by apply discover_leader_ok.
  - destruct cb; simpl.
    + by apply check_discovery_timeout_ok.
    + by apply check_election_result_ok.
  - unfold heartbeat_cycle. run_monad.
    destruct (bool_decide (state (self w) = LEADER)); [simpl; keep_ok |].
    destruct (bool_decide (state (self w) = FOLLOWER)); [| done].
    destruct (_ && _); [| done]. cbv beta iota.
    apply start_election_ok. keep_ok.
  - unfold send_heartbeats_cycle. run_monad.
    destruct (_ && _); [| done]. case_match; [simpl; keep_ok | done].
  - unfold monitor_peers_cycle. run_monad.
    case_bool_decide; [| done]. simpl.
    pose proof (proj1 Hw). apply peer_ok_eta in Hw.
    eapply peer_ok_catalog; [eassumption |]. by apply remove_dead_peers_keep.
Qed.

Lemma system_step_ok ws ws' :
  system_step ws ws' → Forall (peer_ok Q) ws → Forall (peer_ok Q) ws'.
Proof.
  intros Hstep Hall.
  destruct Hstep as [i j wi wj message env a r w' Hi Hj Hin E
                    | i wi w' Hi Hlocal].
  - apply Forall_insert; [done |].
    apply (f_equal fst) in E. simpl in E. subst w'.
    apply handle_udp_message_ok.
    + pose proof (Forall_lookup_1 _ _ _ _ Hall Hj) as [_ Hout].
      by apply (proj1 (Forall_forall _ _) Hout).
    + by apply (Forall_lookup_1 _ _ _ _ Hall Hi).
  - apply Forall_insert; [done |].
    eapply local_step_ok; [done |]. by apply (Forall_lookup_1 _ _ _ _ Hall Hi).
Qed.

Lemma fresh_ok w : fresh w → peer_ok Q w.
Proof.
  intros [Hcat Heff]. split.
  - rewrite Hcat. apply (property_empty Q HQ).
  - unfold outbox. rewrite Heff. constructor.
Qed.

Lemma system_run_ok ws ws' :
  Forall fresh ws →
  rtc system_step ws ws' →
  Forall (λ w, Q (global_catalog (self w))) ws'.
Proof.
  intros Hfresh Hrun.
  assert (Forall (peer_ok Q) ws) as Hall.
  { eapply Forall_impl; [exact Hfresh | apply fresh_ok]. }
  clear Hfresh. induction Hrun as [ws | ws ws1 ws2 Hstep _ IH].
  - eapply Forall_impl; [exact Hall |]. by intros w [? _].
  - apply IH. by eapply system_step_ok.
Qed.

End CatalogProperty.

Lemma one_entry_per_peer_property : catalog_property one_entry_per_peer.
Proof.
  split.
  - intros f es. by rewrite lookup_empty.
  - intros. by apply publish_loop_invariant.
  - intros. by apply purge_catalog_invariant.
Qed.

Lemma no_empty_list_property : catalog_property no_empty_list.
Proof.
  split.
  - intros f es. by rewrite lookup_empty.
  - intros pid host port files cat Hcat f es. rewrite publish_loop_lookup.
    case_match; [| by apply Hcat]. intros [= <-]. by destruct (filter _ _).
  - intros pid cat Hcat f es. rewrite purge_catalog_lookup. unfold purged.
    by destruct (filter _ _); intros [= <-].
Qed.

Lemma fresh_pair_fresh : Forall fresh fresh_pair.
Proof. by repeat constructor. Qed.

Lemma fresh_pair_run : rtc system_step fresh_pair pair_informed.
Proof.
  apply (rtc_l _ _ [fresh_leader; follower_published]).
  { exact (system_act fresh_pair 1 fresh_follower follower_published eq_refl
             (local_publish_files fresh_follower env_0 files_h1 (Ok tt)
                follower_published eq_refl)). }
  apply (rtc_l _ _ [leader_listed; follower_published]).
  { exact (system_deliver [fresh_leader; follower_published] 0 1
             fresh_leader follower_published
             (publish_msg "m" (files_dict files_h1) 50001) env_0 from_m
             (Ok tt) leader_listed eq_refl eq_refl
             (list_elem_of_here _ _) eq_refl). }
  apply (rtc_l _ _ [leader_listed; follower_asked]).
  { exact (system_act [leader_listed; follower_published] 1
             follower_published follower_asked eq_refl
             (local_query_files follower_published env_5 (Ok tt)
                follower_asked eq_refl)). }
  apply (rtc_l _ _ [leader_answered; follower_asked]).
  { exact (system_deliver [leader_listed; follower_asked] 0 1
             leader_listed follower_asked
             (query_files_msg "m") env_5 from_m (Ok tt) leader_answered
             eq_refl eq_refl
             (list_elem_of_further _ _ _ (list_elem_of_here _ _)) eq_refl). }
  apply (rtc_l _ _ pair_informed); [| apply rtc_refl].
  exact (system_deliver [leader_answered; follower_asked] 1 0
           follower_asked leader_answered
           (file_list_msg "z" (global_catalog (self leader_listed)))
           env_5 from_z (Ok tt) follower_informed eq_refl eq_refl
           (list_elem_of_here _ _) eq_refl).
Qed.

Lemma filter_own_after_replace pid (es : list Entry) (e : Entry) :
  e_peer_id e = pid →
  filter (λ e, e_peer_id e = pid)
         (filter (λ e, e_peer_id e ≠ pid) es ++ [e]) = [e].
Proof.
  intros He. rewrite filter_app.
  assert (filter (λ e, e_peer_id e = pid)
                 (filter (λ e, e_peer_id e ≠ pid) es) = []) as ->.
  { induction es as [| x xs IH]; [done |].
    rewrite filter_cons. case_decide; [| done].
    by rewrite filter_cons, decide_False. }
  by rewrite filter_cons, decide_True.
Qed.

(** C2: the catalog holds at most one entry per filename and peer, at
    the leader as at every peer, and every operation keeps it so.  In a
    system of peers that run this code and start without a catalog, the
    invariant holds of every catalog after any run, whatever the peers
    do and whichever of the messages sent are delivered, in any order
    and any number of times.  Each single operation of a peer keeps the
    invariant, the catalog a FILE_LIST brings being one that satisfies
    it.  A PUBLISH of peer P that carries filename F deletes the entries
    of P under F and then appends the fresh one; and after two PUBLISH
    messages of one peer that both carry a filename, the catalog holds
    under that filename exactly one entry of the peer, with the
    metadata of the second. *)
Theorem catalog_one_entry_per_peer :
  (∀ ws ws',
     Forall fresh ws →
     rtc system_step ws ws' →
     Forall (λ w, one_entry_per_peer (global_catalog (self w))) ws')
  ∧ (∀ w w', step w w' →
       one_entry_per_peer (global_catalog (self w)) →
       one_entry_per_peer (global_catalog (self w')))
  ∧ (∀ env a w peer_id filename d port md,
       state (self w) = LEADER →
       d !! filename = Some md →
       ∃ w1,
         handle_publish env (publish_msg peer_id (files_dict d) port) a w
         = (w1, Ok tt)
         ∧ global_catalog (self w1) !! filename
           = Some (filter (λ e, e_peer_id e ≠ peer_id)
                          (default [] (global_catalog (self w) !! filename))
                   ++ [mkEntry peer_id (publish_host env a) port
                               (default 0 (md_size md)) (md_hash md)]))
  ∧ (∀ env1 env2 a1 a2 w peer_id filename d1 d2 port1 port2 md1 md2,
       state (self w) = LEADER →
       d1 !! filename = Some md1 →
       d2 !! filename = Some md2 →
       ∃ w1 w2 entries,
         handle_publish env1 (publish_msg peer_id (files_dict d1) port1)
                        a1 w = (w1, Ok tt)
         ∧ handle_publish env2 (publish_msg peer_id (files_dict d2) port2)
                          a2 w1 = (w2, Ok tt)
         ∧ global_catalog (self w2) !! filename = Some entries
         ∧ filter (λ e, e_peer_id e = peer_id) entries
           = [mkEntry peer_id (publish_host env2 a2) port2
                      (default 0 (md_size md2)) (md_hash md2)]).
Proof.
  split.
  { intros ws ws'.
    apply (system_run_ok one_entry_per_peer one_entry_per_peer_property). }
  split; [exact step_invariant |]. split.
  { intros env a w pid f d port md Hst Hd. eexists. split.
    - by apply (handle_publish_leader env _ a w pid (files_dict d) port).
    - simpl. rewrite publish_loop_lookup, Hd. reflexivity. }
  intros env1 env2 a1 a2 w pid f d1 d2 port1 port2 md1 md2 Hst H1 H2.
  eexists _, _, _. split; [| split; [| split]].
  - by apply (handle_publish_leader env1 _ a1 w pid (files_dict d1) port1).
  - by apply (handle_publish_leader env2 _ a2 _ pid (files_dict d2) port2).
  - simpl. rewrite publish_loop_lookup, H2. reflexivity.
  - by apply filter_own_after_replace.
Qed.

Lemma catalog_one_entry_per_peer_witness :
  Forall (λ w, one_entry_per_peer (global_catalog (self w))) pair_informed
  ∧ one_entry_per_peer
      (global_catalog
         (self (handle_udp_message env_100
                  (publish_msg "x" (files_dict files_h1) 50007) from_9
                  (world_m LEADER false)).1))
  ∧ ∃ w1 w2 entries,
      handle_publish env_100 (publish_msg "x" (files_dict files_h1) 50007)
                     (Some from_9) (world_m LEADER false) = (w1, Ok tt)
      ∧ handle_publish env_100 (publish_msg "x" (files_dict files_h2) 50007)
                       (Some from_9) w1 = (w2, Ok tt)
      ∧ global_catalog (self w2) !! "a.txt" = Some entries
      ∧ filter (λ e, e_peer_id e = "x") entries
        = [mkEntry "x" "10.0.0.9" 50007 3 (Some "h2")].
Proof.
  destruct catalog_one_entry_per_peer as (Hrun & Hstep & _ & Htwice).
  split; [| split].
  - exact (Hrun fresh_pair pair_informed fresh_pair_fresh fresh_pair_run).
  - apply (Hstep (world_m LEADER false)).
    + apply (step_udp_message _ env_100
               (publish_msg "x" (files_dict files_h1) 50007) from_9
               (handle_udp_message env_100
                  (publish_msg "x" (files_dict files_h1) 50007) from_9
                  (world_m LEADER false)).2).
      * intros Ht. discriminate Ht.
      * by destruct (handle_udp_message _ _ _ _).
    + intros f es H. simpl in H. by rewrite lookup_empty in H.
  - apply (Htwice env_100 env_100 (Some from_9) (Some from_9)
             (world_m LEADER false) "x" "a.txt" files_h1 files_h2
             50007 50007 (mkMetadata (Some 3) (Some "h1"))
             (mkMetadata (Some 3) (Some "h2")));
      reflexivity.
Defined.

(** ** The liveness sweep *)

Lemma remove_dead_peer_forgets p pid : forgotten pid (remove_dead_peer p pid).
Proof.
  unfold forgotten, remove_dead_peer. simpl.
  rewrite !lookup_delete_eq. repeat split.
  intros f es. rewrite purge_catalog_lookup. intros ->%purged_Some.
  apply filter_removes_peer.
Qed.

Lemma remove_dead_peer_keeps_forgotten p pid q :
  forgotten pid p → forgotten pid (remove_dead_peer p q).
Proof.
  intros (Hp & Hh & Hc). unfold forgotten, remove_dead_peer. simpl.
  repeat split.
  - apply lookup_delete_None. by right.
  - apply lookup_delete_None. by right.
  - intros f es. rewrite purge_catalog_lookup. intros ->%purged_Some.
    destruct (global_catalog p !! f) as [es|] eqn:E; simpl.
    + intros (e & Heq & Hin)%list_elem_of_fmap.
      apply list_elem_of_filter in Hin as [_ Hin].
      apply (Hc f es E). apply list_elem_of_fmap. by exists e.
    + apply not_elem_of_nil.
Qed.

Lemma remove_dead_peers_forgets dead pid :
  ∀ p, (pid ∈ dead ∨ forgotten pid p) →
       forgotten pid (foldl remove_dead_peer p dead).
Proof.
  induction dead as [| d dead IH]; intros p H; cbn [foldl].
  - destruct H as [H | H]; [by apply elem_of_nil in H | done].
  - apply IH. destruct H as [[-> | H]%elem_of_cons | H].
    + right. apply remove_dead_peer_forgets.
    + by left.
    + right. by apply remove_dead_peer_keeps_forgotten.
Qed.

Lemma elem_of_dead_peers env p pid :
  pid ∈ dead_peers env p
  ↔ ∃ t, last_heartbeats p !! pid = Some t ∧ 15 < now env - t.
Proof.
  unfold dead_peers. rewrite list_elem_of_fmap. split.
  - intros ([pid' t] & -> & Hin). apply list_elem_of_filter in Hin as [Hold Hin].
    apply elem_of_map_to_list in Hin. by exists t.
  - intros (t & Hl & Hold). exists (pid, t). split; [done |].
    apply list_elem_of_filter. split; [done | by apply elem_of_map_to_list].
Qed.

(** What the sweep does achieve: a peer whose last recorded heartbeat
    is more than 15 seconds old is forgotten by the leader. *)
Lemma sweep_forgets_silent_heartbeater env w pid t :
  state (self w) = LEADER →
  last_heartbeats (self w) !! pid = Some t →
  15 < now env - t →
  ∃ w', monitor_peers_cycle env w = (w', Ok tt) ∧ forgotten pid (self w').
Proof.
  intros Hst Hl Hold. unfold monitor_peers_cycle. run_monad.
  rewrite Hst. simpl. eexists. split; [done |]. simpl.
  apply remove_dead_peers_forgets. left.
  apply elem_of_dead_peers. by exists t.
Qed.

(** The sweep reads the heartbeat table only: with no heartbeat on
    record it changes nothing, whatever the directory and the catalog
    hold and however old their records are. *)
Lemma sweep_without_heartbeats env w :
  last_heartbeats (self w) = ∅ → monitor_peers_cycle env w = (w, Ok tt).
Proof.
  intros H. unfold monitor_peers_cycle, dead_peers. run_monad.
  destruct w as [p out]. simpl in *. case_bool_decide; [| done].
  simpl. by rewrite H, map_to_list_empty.
Qed.

(** C3 fails on a peer that was recorded in the directory by its
    DISCOVERY and has published, but never sent a heartbeat: 100
    seconds later the sweep leaves it in the directory, leaves its
    catalog entry, and a query is still answered with that entry. *)
Theorem silent_discovered_peer_survives_sweep :
  peers (self world_published) !! "x" = Some (mkPeerRecord from_9 0)
  ∧ 15 < now env_100 - 0
  ∧ monitor_peers_cycle env_100 world_published = (world_published, Ok tt)
  ∧ global_catalog (self world_published) !! "a.txt"
    = Some [mkEntry "x" "10.0.0.9" 50009 3 (Some "h1")]
  ∧ handle_udp_message env_100
      (mkMessage (Some MSG_QUERY_FILES) (Some "y") None None None None
                 None None None)
      from_9 world_published
    = (mkWorld (self world_published)
         (effects world_published
          ++ [SendPacket
                (file_list_msg "m" (global_catalog (self world_published)))
                from_9]), Ok tt).
Proof.
  split; [by vm_compute |]. split; [done |].
  split; [by apply sweep_without_heartbeats |].
  split; by vm_compute.
Qed.

(** With one heartbeat on record the same peer is swept. *)
Example heard_peer_is_swept :
  ∃ w', monitor_peers_cycle env_100 world_heartbeat = (w', Ok tt)
        ∧ forgotten "x" (self w').
Proof.
  apply (sweep_forgets_silent_heartbeater env_100 world_heartbeat "x" 0);
    [reflexivity | by vm_compute | done].
Qed.

(** ** The download path *)

Example download_sample :
  download_file sample_sha256 sample_path_join
      sample_dirname sample_basename sample_connect "shared"
                "10.0.0.9" 50009 "a.txt" (Some "dl") (Some "2cf2")
                empty_machine
  = (mkMachine {[ "dl/a.txt" := [x68; x69] ]} {[ "dl" ]}
       [Print (Downloading "a.txt" "10.0.0.9" 50009);
        Print (Progress 20 100);
        Print (Downloaded "a.txt" "dl/a.txt");
        Print Verifying_file_integrity;
        Calculate_hash "dl/a.txt";
        Print SUCCESS_integrity_verified], Ok tt).
Proof. by vm_compute. Qed.

Lemma recv_chunk_shrinks n sock b chunk sock' :
  recv n sock = (Ok (b :: chunk), sock') →
  (List.length (pending sock') < List.length (pending sock))%nat.
Proof.
  unfold recv. destruct (pending sock) as [| x xs] eqn:E.
  - destruct (ends_in_reset sock); intros [=].
  - intros [= Htake <-]. simpl.
    destruct (Z.to_nat n) as [| k]; [done |]. simpl.
    rewrite length_drop. lia.
Qed.

(** The fuel of [receive_loop] is never used up: any two amounts above
    the number of pending bytes give the same run. *)
Lemma receive_loop_fuel cb save_path filesize :
  ∀ fuel fuel' received sock m,
    (List.length (pending sock) < fuel)%nat →
    (List.length (pending sock) < fuel')%nat →
    receive_loop fuel cb save_path filesize received sock m
    = receive_loop fuel' cb save_path filesize received sock m.
Proof.
  induction fuel as [| fuel IH]; intros fuel' received sock m H H';
    [lia |].
  destruct fuel' as [| fuel']; [lia |]. simpl.
  case_bool_decide; [| done].
  destruct (recv _ sock) as [[[| b chunk] | e] sock'] eqn:E; try done.
  apply recv_chunk_shrinks in E. unfold write. run_monad.
  match goal with |- context [cb ?r ?t ?s] =>
    destruct (cb r t s) as [m1 [[] | e]] end; [| done].
  apply IH; lia.
Qed.

Lemma unverified_ret {A} (a : A) : unverified (mret a).
Proof. intros m. exists []. by rewrite app_nil_r. Qed.

Lemma unverified_raise {A} (e : exn) : unverified (raise (A := A) e).
Proof. intros m. exists []. by rewrite app_nil_r. Qed.

Lemma unverified_bind {A B} (c : M Machine A) (k : A → M Machine B) :
  unverified c → (∀ a, unverified (k a)) → unverified (c ≫= k).
Proof.
  intros Hc Hk m. destruct (Hc m) as (n1 & E1 & F1).
  unfold mbind, M_bind, bind. destruct (c m) as [m1 [a | e]]; simpl in *.
  - destruct (Hk a m1) as (n2 & E2 & F2). exists (n1 ++ n2).
    rewrite E2, E1, app_assoc. split; [done | by apply Forall_app].
  - by exists n1.
Qed.

Lemma unverified_try_except (body : M Machine unit)
    (handler : exn → M Machine unit) :
  unverified body → (∀ e, unverified (handler e)) →
  unverified (try_except body handler).
Proof.
  intros Hb Hh m. destruct (Hb m) as (n1 & E1 & F1).
  unfold try_except. destruct (body m) as [m1 [a | e]]; simpl in *.
  - by exists n1.
  - destruct (Hh e m1) as (n2 & E2 & F2). exists (n1 ++ n2).
    rewrite E2, E1, app_assoc. split; [done | by apply Forall_app].
Qed.

Lemma unverified_print line :
  is_verification (Print line) = false → unverified (print line).
Proof. intros H m. exists [Print line]. split; [done | by constructor]. Qed.

Lemma unverified_files (f : Machine → Machine) :
  (∀ m, trace (f m) = trace m) → unverified (modify f).
Proof.
  intros H m. exists []. rewrite app_nil_r. split; [| done].
  unfold modify. simpl. apply H.
Qed.

Lemma unverified_show_progress received total :
  unverified (show_progress received total).
Proof.
  unfold show_progress. destruct (_ && _).
  - by apply unverified_print.
  - apply unverified_ret.
Qed.

Lemma unverified_receive_loop fuel save_path filesize :
  ∀ received sock,
    unverified (receive_loop fuel show_progress save_path
                             filesize received sock).
Proof.
  induction fuel as [| fuel IH]; intros received sock; simpl.
  - apply unverified_ret.
  - case_bool_decide; [| apply unverified_ret].
    destruct (recv _ sock) as [[[| b chunk] | e] sock'].
    + apply unverified_ret.
    + apply unverified_bind; [by apply unverified_files |]. intros _.
      apply unverified_bind; [apply unverified_show_progress |]. intros _.
      apply IH.
    + apply unverified_raise.
Qed.

Lemma unverified_open_wb dirname basename path :
  unverified (open_wb dirname basename path).
Proof.
  intros m. exists []. rewrite app_nil_r. split; [| done].
  unfold open_wb. by repeat case_match.
Qed.

Lemma unverified_ensure_dir d : unverified (ensure_dir d).
Proof.
  apply unverified_files. intros m. by destruct (path_exists m d).
Qed.

Lemma unverified_receive_file dirname basename sock save_path :
  unverified (receive_file dirname basename sock save_path show_progress).
Proof.
  unfold receive_file. apply unverified_try_except.
  - destruct (recv 8 sock) as [[[| b raw] | e] sock'].
    + apply unverified_ret.
    + destruct (unpack_Q _); [| apply unverified_raise].
      apply unverified_bind; [apply unverified_open_wb |]. intros _.
      apply unverified_receive_loop.
    + apply unverified_raise.
  - intros e. by apply unverified_print.
Qed.

Lemma unverified_transfer connect shared_dir path_join
    dirname basename host port
    filename save_dir :
  unverified (transfer path_join dirname basename connect shared_dir host port
                       filename save_dir).
Proof.
  unfold transfer. destruct (connect _ _ _); try apply unverified_raise.
  apply unverified_bind; [apply unverified_ensure_dir |]. intros _.
  apply unverified_bind; [apply unverified_receive_file |]. intros _.
  apply unverified_ret.
Qed.

(** A PUBLISH in list form leaves, under each listed name, the
    publisher's only entry without a hash. *)
Lemma list_form_entry_has_no_hash env message a w names sender port f :
  state (self w) = LEADER →
  m_sender_id message = Some sender →
  m_files message = Some (files_list names) →
  m_tcp_port message = Some port →
  f ∈ names →
  ∃ w' entries,
    handle_publish env message a w = (w', Ok tt)
    ∧ global_catalog (self w') !! f = Some entries
    ∧ ∀ e, e ∈ entries → e_peer_id e = sender → e_hash e = None.
Proof.
  intros Hst Hs Hf Hp Hin.
  rewrite (handle_publish_leader env message a w sender _ port Hst Hs Hf Hp).
  eexists _, _. split; [done |]. simpl.
  rewrite publish_loop_lookup, dict_of_names_lookup.
  rewrite bool_decide_eq_true_2 by done. split; [done |].
  intros e [He | He]%elem_of_app Hpid.
  - apply list_elem_of_filter in He as [Hne _]. done.
  - apply list_elem_of_singleton in He. by subst.
Qed.

(** C10: when [expected_hash] is [None] (or empty), [download_file]
    returns without any verification: no hash is computed and none of
    the lines of the integrity check, the mismatch warning among them,
    is printed; the files on disk are those the transfer left.  This is
    the case of every entry a list-form PUBLISH created, whose hash is
    null. *)
Theorem download_without_expected_hash
    sha256_hexdigest path_join dirname basename connect shared_dir
    host port filename save_dir expected_hash m :
  truthy expected_hash = false →
  let run := download_file sha256_hexdigest path_join dirname basename connect
                           shared_dir host port filename save_dir
                           expected_hash m in
  run.2 = Ok tt
  ∧ (∃ new, trace run.1 = trace m ++ new
            ∧ Forall (λ ev, is_verification ev = false) new)
  ∧ files run.1
    = files (transfer path_join dirname basename connect shared_dir host port
                      filename save_dir
                      (print (Downloading filename host port) m).1).1
  ∧ (∀ env message a w names sender tcp f,
       state (self w) = LEADER →
       m_sender_id message = Some sender →
       m_files message = Some (files_list names) →
       m_tcp_port message = Some tcp →
       f ∈ names →
       ∃ w' entries,
         handle_publish env message a w = (w', Ok tt)
         ∧ global_catalog (self w') !! f = Some entries
         ∧ ∀ e, e ∈ entries → e_peer_id e = sender →
                truthy (e_hash e) = false).
Proof.
  intros Hno run. subst run. repeat split.
  - unfold download_file, verify. rewrite Hno. run_monad.
    by destruct (transfer _ _ _ _ _ _ _ _ _) as [m1 [p | e]].
  - unfold download_file, verify. rewrite Hno.
    apply unverified_bind; [by apply unverified_print |]. intros _.
    apply unverified_try_except.
    + apply unverified_bind; [apply unverified_transfer |]. intros p.
      apply unverified_bind; [by apply unverified_print |]. intros _.
      apply unverified_ret.
    + intros e. by apply unverified_print.
  - unfold download_file, verify. rewrite Hno. run_monad.
    by destruct (transfer _ _ _ _ _ _ _ _ _) as [m1 [p | e]].
  - intros env message a w names sender tcp f Hst Hs Hf Hp Hin.
    destruct (list_form_entry_has_no_hash env message a w names sender tcp f)
      as (w' & es & E & El & Hh); try done.
    exists w', es. split; [done |]. split; [done |].
    intros e He Hpid. by rewrite (Hh e He Hpid).
Qed.

Lemma download_without_expected_hash_witness :
  let run := download_file sample_sha256 sample_path_join
      sample_dirname sample_basename sample_connect
                           "shared" "10.0.0.9" 50009 "a.txt" (Some "dl")
                           None empty_machine in
  run.2 = Ok tt
  ∧ (∃ new, trace run.1 = trace empty_machine ++ new
            ∧ Forall (λ ev, is_verification ev = false) new)
  ∧ files run.1
    = files (transfer sample_path_join
        sample_dirname sample_basename sample_connect "shared" "10.0.0.9"
                      50009 "a.txt" (Some "dl")
                      (print (Downloading "a.txt" "10.0.0.9" 50009)
                             empty_machine).1).1.
Proof.
  destruct (download_without_expected_hash sample_sha256 sample_path_join
              sample_dirname sample_basename sample_connect "shared" "10.0.0.9" 50009 "a.txt" (Some "dl")
              None empty_machine eq_refl) as (H1 & H2 & H3 & _).
  exact (conj H1 (conj H2 H3)).
Defined.

(** * Further properties of the code *)

(** ** The dispatcher and its handlers *)

Ltac crunch_handler :=
  run_monad;
  repeat first [ progress simpl in * | case_match | case_bool_decide
               | progress simplify_eq ].

Ltac in_list := rewrite ?elem_of_cons; tauto.

Ltac solve_atomic :=
  intros H; revert H; crunch_handler; intros; simplify_eq;
  try congruence; (split; [done | in_list]).

Lemma handle_discovery_atomic env message a w w' e :
  handle_discovery env message a w = (w', Raise e) →
  w' = w ∧ e ∈ handler_exceptions.
Proof. unfold handle_discovery, handler_exceptions. solve_atomic. Qed.

Lemma handle_discovery_response_atomic env message a w w' e :
  handle_discovery_response env message a w = (w', Raise e) →
  w' = w ∧ e ∈ handler_exceptions.
Proof.
  unfold handle_discovery_response, handler_exceptions. solve_atomic.
Qed.

Lemma handle_heartbeat_atomic env message w w' e :
  handle_heartbeat env message w = (w', Raise e) →
  w' = w ∧ e ∈ handler_exceptions.
Proof.
  unfold handle_heartbeat, note_peer_heartbeat, handler_exceptions.
  solve_atomic.
Qed.

Lemma handle_election_atomic env message w w' e :
  handle_election env message w = (w', Raise e) →
  w' = w ∧ e ∈ handler_exceptions.
Proof.
  unfold handle_election, handle_election_message, start_election,
    handler_exceptions.
  solve_atomic.
Qed.

Lemma handle_coordinator_atomic env message w w' e :
  handle_coordinator env message w = (w', Raise e) →
  w' = w ∧ e ∈ handler_exceptions.
Proof. unfold handle_coordinator, handler_exceptions. solve_atomic. Qed.

Lemma handle_publish_atomic env message a w w' e :
  handle_publish env message a w = (w', Raise e) →
  w' = w ∧ e ∈ handler_exceptions.
Proof. unfold handle_publish, handler_exceptions. solve_atomic. Qed.

Lemma handle_query_files_atomic env message a w w' e :
  handle_query_files env message a w = (w', Raise e) →
  w' = w ∧ e ∈ handler_exceptions.
Proof. unfold handle_query_files, handler_exceptions. solve_atomic. Qed.

Lemma handle_file_list_atomic env message w w' e :
  handle_file_list env message w = (w', Raise e) →
  w' = w ∧ e ∈ handler_exceptions.
Proof. unfold handle_file_list, handler_exceptions. solve_atomic. Qed.

(** X1: a handler that raises on a message of the peers' own making
    has changed nothing.  For a message whose fields, where present,
    have the types the peers give them (a string as sender_id, files as
    a mapping of names to size-and-hash objects or a list of names, a
    catalog as a mapping of names to lists of entries), a dispatch that
    ends in an exception leaves the peer and its effects what they
    were, and the exception is the KeyError of a missing key or the
    TypeError of comparing a missing sender_id.  Fields of other types
    are outside [Message]. *)
Theorem failed_dispatch_changes_nothing env message a w w' e :
  handle_udp_message env message a w = (w', Raise e) →
  w' = w ∧ e ∈ handler_exceptions.
Proof.
  unfold handle_udp_message. run_monad.
  repeat (case_bool_decide; [try done |]); try done.
  - apply handle_discovery_atomic.
  - apply handle_discovery_response_atomic.
  - apply handle_heartbeat_atomic.
  - apply handle_election_atomic.
  - apply handle_coordinator_atomic.
  - apply handle_publish_atomic.
  - apply handle_query_files_atomic.
  - apply handle_file_list_atomic.
Qed.

Lemma failed_dispatch_changes_nothing_witness :
  world_m FOLLOWER true = world_m FOLLOWER true
  ∧ KeyError "sender_id" ∈ handler_exceptions.
Proof.
  apply (failed_dispatch_changes_nothing env_100
           (mkMessage (Some MSG_COORDINATOR) None (Some from_9) None None
                      None None None None)
           from_9 (world_m FOLLOWER true)).
  reflexivity.
Defined.

(** X2: a message whose type is missing or is none of the eight known
    types is ignored: nothing changes, nothing is sent, nothing is
    raised, whatever else the message holds. *)
Theorem unknown_type_ignored env message a w :
  (∀ t, m_type message = Some t → t ∉ known_types) →
  handle_udp_message env message a w = (w, Ok tt).
Proof.
  intros H. unfold handle_udp_message. run_monad.
  assert (∀ t, t ∈ known_types → m_type message ≠ Some t) as Hne.
  { intros t Hin E. by apply (H t E). }
  case_bool_decide; [done |].
  rewrite !bool_decide_eq_false_2; [done | apply Hne; unfold known_types ..];
    in_list.
Qed.

Lemma unknown_type_ignored_witness :
  handle_udp_message env_100
    (mkMessage (Some "ALIVE") (Some "z") None None None None None None None)
    from_9 (world_m LEADER true)
  = (world_m LEADER true, Ok tt).
Proof.
  apply (unknown_type_ignored env_100
           (mkMessage (Some "ALIVE") (Some "z") None None None None None
                      None None)
           from_9 (world_m LEADER true)).
  intros t [= <-]. unfold known_types. rewrite !elem_of_cons.
  intros H. repeat (destruct H as [H | H]; [discriminate H |]).
  by apply elem_of_nil in H.
Defined.

(** X3: DISCOVERY, PUBLISH and QUERY_FILES are served by a leader only:
    a peer in any other role returns from them without a change, an
    answer or an exception, also when the message lacks the keys a
    leader would read. *)
Theorem leader_requests_ignored_by_others env message a w t :
  state (self w) ≠ LEADER →
  m_type message = Some t →
  t ∈ leader_only_types →
  handle_udp_message env message a w = (w, Ok tt).
Proof.
  intros Hst Ht Hin. unfold handle_udp_message. run_monad.
  case_bool_decide; [done |]. rewrite Ht.
  unfold leader_only_types in Hin. rewrite !elem_of_cons in Hin.
  destruct Hin as [-> | [-> | [-> | []%elem_of_nil]]]; simpl;
    unfold handle_discovery, handle_publish, handle_query_files;
    run_monad; by rewrite bool_decide_eq_false_2.
Qed.

Lemma leader_requests_ignored_by_others_witness :
  handle_udp_message env_100
    (mkMessage (Some MSG_PUBLISH) (Some "z") None None None None None None
               None)
    from_9 (world_m FOLLOWER false)
  = (world_m FOLLOWER false, Ok tt).
Proof.
  apply (leader_requests_ignored_by_others env_100
           (mkMessage (Some MSG_PUBLISH) (Some "z") None None None None
                      None None None)
           from_9 (world_m FOLLOWER false) MSG_PUBLISH).
  - intros H. discriminate H.
  - reflexivity.
  - unfold leader_only_types. rewrite !elem_of_cons. tauto.
Defined.

(** ** Discovery *)

(** X4: the discovery round trip.  The requester broadcasts DISCOVERY
    and arms the 5 second timer; a leader that handles the request
    answers to the datagram's source address with DISCOVERY_RESPONSE and
    records the requester under that address; the requester that
    handles the answer becomes a FOLLOWER of the leader and records the
    address the answer came from; the timer that expires afterwards
    starts no election. *)
Theorem discovery_round_trip env_r env_l env_r' env_t a_r a_l wr wl :
  state (self wl) = LEADER →
  id (self wr) ≠ id (self wl) →
  let request :=
    discovery_msg (id (self wr)) (get_local_ip env_r, udp_port (self wr)) in
  let response := discovery_response_msg (id (self wl)) (id (self wl)) in
  let wr1 :=
    mkWorld (self wr)
            (effects wr ++ [SendBroadcast request BROADCAST_PORT;
                            StartTimer 5 cb_check_discovery_timeout]) in
  ∃ wl1 wr2,
    discover_leader env_r wr = (wr1, Ok tt)
    ∧ handle_udp_message env_l request a_r wl = (wl1, Ok tt)
    ∧ effects wl1 = effects wl ++ [SendPacket response a_r]
    ∧ peers (self wl1)
      = <[id (self wr) := mkPeerRecord a_r (now env_l)]> (peers (self wl))
    ∧ handle_udp_message env_r' response a_l wr1 = (wr2, Ok tt)
    ∧ state (self wr2) = FOLLOWER
    ∧ leader_id (self wr2) = Some (id (self wl))
    ∧ peers (self wr2) !! id (self wl)
      = Some (mkPeerRecord a_l (now env_r'))
    ∧ fire_timer env_t cb_check_discovery_timeout wr2 = (wr2, Ok tt).
Proof.
  intros Hst Hne request response wr1.
  eexists _, _. split; [| split; [| split; [| split; [| split]]]].
  - unfold discover_leader. run_monad. simpl. by rewrite <- app_assoc.
  - unfold handle_udp_message. run_monad. simpl.
    rewrite bool_decide_eq_false_2 by congruence. simpl.
    unfold handle_discovery. run_monad. rewrite Hst. simpl. reflexivity.
  - reflexivity.
  - reflexivity.
  - unfold handle_udp_message. run_monad. simpl.
    rewrite bool_decide_eq_false_2 by congruence. simpl.
    unfold handle_discovery_response. run_monad. simpl. reflexivity.
  - simpl. rewrite lookup_insert_eq. repeat split.
Qed.

Lemma discovery_round_trip_witness :
  ∃ wl1 wr2,
    discover_leader env_0 (world_m FOLLOWER false)
    = (mkWorld (peer_m FOLLOWER false)
         [SendBroadcast (discovery_msg "m" ("10.0.0.1", 40001))
                        BROADCAST_PORT;
          StartTimer 5 cb_check_discovery_timeout], Ok tt)
    ∧ handle_udp_message env_0 (discovery_msg "m" ("10.0.0.1", 40001))
                         from_9 world_leader_z = (wl1, Ok tt)
    ∧ effects wl1
      = effects world_leader_z
        ++ [SendPacket (discovery_response_msg "z" "z") from_9]
    ∧ peers (self wl1)
      = <["m" := mkPeerRecord from_9 0]> (peers (self world_leader_z))
    ∧ handle_udp_message env_100 (discovery_response_msg "z" "z") from_9
        (mkWorld (peer_m FOLLOWER false)
           [SendBroadcast (discovery_msg "m" ("10.0.0.1", 40001))
                          BROADCAST_PORT;
            StartTimer 5 cb_check_discovery_timeout])
      = (wr2, Ok tt)
    ∧ state (self wr2) = FOLLOWER
    ∧ leader_id (self wr2) = Some "z"
    ∧ peers (self wr2) !! "z" = Some (mkPeerRecord from_9 100)
    ∧ fire_timer env_100 cb_check_discovery_timeout wr2 = (wr2, Ok tt).
Proof.
  apply (discovery_round_trip env_0 env_0 env_100 env_100 from_9 from_9
           (world_m FOLLOWER false) world_leader_z).
  - reflexivity.
  - intros H. discriminate H.
Defined.

(** ** The receive loop as a whole *)

(** X5: the receive loop over two batches of datagrams.  If the loop
    is left during the first batch, no datagram of the second is ever
    handled; otherwise the second batch is handled from where the first
    ended.  The loop prints at most one line, the error it is left
    with. *)
Theorem listen_app {W : Type}
    (json_loads : list byte → result Message)
    (callback : Message → Addr → M W unit)
    (inbox1 inbox2 : list Recv) (w : W) (out : list Line) :
  let first := listen json_loads callback inbox1 w out in
  listen json_loads callback (inbox1 ++ inbox2) w out
  = match loop first with
    | Broken => first
    | Receiving =>
        listen json_loads callback inbox2 (world first) (console first)
    end
  ∧ match loop first with
    | Broken => ∃ e, console first = out ++ [Error_receiving_UDP_packet e]
    | Receiving => console first = out
    end.
Proof.
  revert w. induction inbox1 as [| d inbox1 IH]; intros w; simpl.
  - done.
  - destruct d as [e | data from]; simpl; [by eauto |].
    destruct (json_loads data) as [message | e]; simpl; [| by eauto].
    destruct (callback message from w) as [w' [[] | e]]; simpl;
      [apply IH | by eauto].
Qed.

(** ** Elections as a whole *)

Lemma dispatch_coordinator env message a w S :
  m_type message = Some MSG_COORDINATOR →
  m_sender_id message = Some S →
  S ≠ id (self w) →
  handle_udp_message env message a w = handle_coordinator env message w.
Proof.
  intros Ht Hs Hne. unfold handle_udp_message. run_monad.
  rewrite Ht, Hs. rewrite bool_decide_eq_false_2 by congruence.
  reflexivity.
Qed.

(** X6: an election between two peers whose messages arrive inside the
    decision window.  The lower peer starts an election; the higher
    peer, idle, handles its ELECTION and starts its own; the lower peer
    handles that ELECTION and yields; both timers expire; the lower peer
    handles the COORDINATOR.  The higher peer ends as LEADER, the lower
    peer as its FOLLOWER, and the lower peer never announced itself. *)
Theorem election_race env_a env_b a_addr b_addr wa wb :
  str_lt (id (self wa)) (id (self wb)) = true →
  election_in_progress (election_manager (self wa)) = false →
  election_in_progress (election_manager (self wb)) = false →
  let announce :=
    coordinator_msg (id (self wb)) (get_local_ip env_b, udp_port (self wb)) in
  let wa1 := (start_election env_a wa).1 in
  let wb1 :=
    (handle_udp_message env_b (election_msg (id (self wa))) a_addr wb).1 in
  let wa2 :=
    (handle_udp_message env_a (election_msg (id (self wb))) b_addr wa1).1 in
  let wa3 := (fire_timer env_a cb_check_election_result wa2).1 in
  let wb2 := (fire_timer env_b cb_check_election_result wb1).1 in
  let wa4 := (handle_udp_message env_a announce b_addr wa3).1 in
  state (self wb2) = LEADER
  ∧ leader_id (self wb2) = Some (id (self wb))
  ∧ effects wb2
    = effects wb ++ [SendBroadcast (election_msg (id (self wb)))
                                   BROADCAST_PORT;
                     StartTimer 3 cb_check_election_result;
                     SendBroadcast announce BROADCAST_PORT]
  ∧ state (self wa4) = FOLLOWER
  ∧ leader_id (self wa4) = Some (id (self wb))
  ∧ election_in_progress (election_manager (self wa4)) = false
  ∧ effects wa4
    = effects wa ++ [SendBroadcast (election_msg (id (self wa)))
                                   BROADCAST_PORT;
                     StartTimer 3 cb_check_election_result].
Proof.
  intros Hlt Ha Hb announce wa1 wb1 wa2 wa3 wb2 wa4.
  pose proof (str_lt_neq _ _ Hlt) as Hne.
  assert (str_gt (id (self wb)) (id (self wa)) = true) as Hgt by done.
  assert (wa1 = election_started env_a wa) as E1.
  { unfold wa1. by rewrite start_election_idle. }
  assert (wb1 = election_started env_b wb) as E2.
  { unfold wb1.
    rewrite (dispatch_election _ _ _ _ (id (self wa))) by done.
    unfold handle_election_message. run_monad. simpl.
    rewrite (str_lt_not_gt _ _ Hlt), Hlt, Hb. simpl.
    by rewrite start_election_idle. }
  assert (wa2 = mkWorld (with_election_in_progress false (self wa1))
                        (effects wa1)) as E3.
  { unfold wa2.
    rewrite (dispatch_election _ _ _ _ (id (self wb)))
      by (rewrite ?E1; simpl; congruence).
    unfold handle_election_message. run_monad. rewrite E1. simpl.
    by rewrite Hgt. }
  assert (wa3 = wa2) as E4.
  { unfold wa3, fire_timer, check_election_result. run_monad.
    rewrite E3. reflexivity. }
  assert (wb2 = victory_declared env_b wb1) as E5.
  { unfold wb2, fire_timer, check_election_result, declare_victory,
      victory_declared. run_monad. rewrite E2. reflexivity. }
  assert (wa4 = coordinator_accepted env_a (id (self wb))
                  (Some (get_local_ip env_b, udp_port (self wb))) wa3)
    as E6.
  { unfold wa4.
    rewrite (dispatch_coordinator _ _ _ _ (id (self wb)))
      by (rewrite ?E4, ?E3, ?E1; simpl; congruence).
    unfold handle_coordinator, coordinator_accepted. run_monad.
    reflexivity. }
  rewrite E5, E2, E6, E4, E3, E1. simpl.
  rewrite <- app_assoc. by repeat split.
Qed.

Lemma election_race_witness :
  let wb2 :=
    (fire_timer env_100 cb_check_election_result
       (handle_udp_message env_100 (election_msg "m") from_9
                           world_idle_z).1).1 in
  state (self wb2) = LEADER ∧ leader_id (self wb2) = Some "z".
Proof.
  destruct (election_race env_0 env_100 from_9 from_9
              (world_m FOLLOWER false) world_idle_z
              eq_refl eq_refl eq_refl) as (H1 & H2 & _).
  exact (conj H1 H2).
Defined.

(** X7: decision timers are neither cancelled nor told apart.  A peer
    starts an election, yields to a higher identifier, and starts a
    second election; when the timer of the first round expires, at
    whatever time, the peer declares victory for the second. *)
Theorem stale_timer_declares_victory env1 env2 env3 env4 a w higher :
  election_in_progress (election_manager (self w)) = false →
  str_gt higher (id (self w)) = true →
  let w1 := (start_election env1 w).1 in
  let w2 := (handle_udp_message env2 (election_msg higher) a w1).1 in
  let w3 := (start_election env3 w2).1 in
  let w4 := (fire_timer env4 cb_check_election_result w3).1 in
  election_in_progress (election_manager (self w2)) = false
  ∧ last_election_time (election_manager (self w3)) = now env3
  ∧ state (self w4) = LEADER
  ∧ leader_id (self w4) = Some (id (self w))
  ∧ effects w4
    = effects w
      ++ [SendBroadcast (election_msg (id (self w))) BROADCAST_PORT;
          StartTimer 3 cb_check_election_result;
          SendBroadcast (election_msg (id (self w))) BROADCAST_PORT;
          StartTimer 3 cb_check_election_result;
          SendBroadcast
            (coordinator_msg (id (self w))
                             (get_local_ip env4, udp_port (self w)))
            BROADCAST_PORT].
Proof.
  intros Hidle Hgt w1 w2 w3 w4.
  assert (w1 = election_started env1 w) as E1.
  { unfold w1. by rewrite start_election_idle. }
  assert (w2 = mkWorld (with_election_in_progress false (self w1))
                       (effects w1)) as E2.
  { unfold w2.
    rewrite (dispatch_election _ _ _ _ higher);
      [| done | done | rewrite E1; simpl; by apply str_gt_neq].
    unfold handle_election_message. run_monad. rewrite E1. simpl.
    by rewrite Hgt. }
  assert (w3 = election_started env3 w2) as E3.
  { unfold w3. rewrite start_election_idle; [done |]. by rewrite E2. }
  assert (w4 = victory_declared env4 w3) as E4.
  { unfold w4, fire_timer, check_election_result, declare_victory,
      victory_declared. run_monad. rewrite E3. reflexivity. }
  rewrite E4, E3, E2, E1. simpl. rewrite <- !app_assoc. by repeat split.
Qed.

Lemma stale_timer_declares_victory_witness :
  let w4 :=
    (fire_timer env_0 cb_check_election_result
       (start_election env_0
          (handle_udp_message env_0 (election_msg "z") from_9
             (start_election env_0 (world_m FOLLOWER false)).1).1).1).1 in
  state (self w4) = LEADER.
Proof.
  destruct (stale_timer_declares_victory env_0 env_0 env_0 env_0 from_9
              (world_m FOLLOWER false) "z" eq_refl eq_refl)
    as (_ & _ & H & _).
  exact H.
Defined.

(** ** Heartbeats and the failure detector *)

Lemma dispatch_heartbeat env message a w :
  m_type message = Some MSG_HEARTBEAT →
  m_sender_id message ≠ Some (id (self w)) →
  handle_udp_message env message a w = handle_heartbeat env message w.
Proof.
  intros Ht Hne. unfold handle_udp_message. run_monad.
  rewrite Ht. by rewrite bool_decide_eq_false_2.
Qed.

Lemma note_peer_heartbeat_run env message w pid :
  py_or (m_peer_id message) (m_sender_id message) = Some pid →
  pid ≠ "" →
  note_peer_heartbeat env message w
  = (mkWorld
       (with_peers
          (alter (λ r, mkPeerRecord (addr r) (now env)) pid (peers (self w)))
          (with_last_heartbeats
             (<[pid := now env]> (last_heartbeats (self w))) (self w)))
       (effects w), Ok tt).
Proof.
  intros Hp Hne. unfold note_peer_heartbeat. rewrite Hp. simpl.
  destruct (String.eqb_spec pid ""); [done |]. simpl. run_monad.
  reflexivity.
Qed.

(** X8: a heartbeat of an ordinary peer at the leader.  It is recorded
    in the heartbeat table under the message's peer_id, or under its
    sender_id when there is no peer_id; the directory record of that
    peer, if there is one, gets the new time, but a peer that is not in
    the directory is not added to it; role, catalog and effects stay. *)
Theorem peer_heartbeat_at_leader env message a w pid :
  state (self w) = LEADER →
  m_type message = Some MSG_HEARTBEAT →
  m_role message ≠ Some (role_str LEADER) →
  m_sender_id message ≠ Some (id (self w)) →
  py_or (m_peer_id message) (m_sender_id message) = Some pid →
  pid ≠ "" →
  ∃ w', handle_udp_message env message a w = (w', Ok tt)
        ∧ last_heartbeats (self w')
          = <[pid := now env]> (last_heartbeats (self w))
        ∧ dom (peers (self w')) = dom (peers (self w))
        ∧ peers (self w') !! pid
          = (λ r, mkPeerRecord (addr r) (now env)) <$> peers (self w) !! pid
        ∧ (∀ q, q ≠ pid → peers (self w') !! q = peers (self w) !! q)
        ∧ state (self w') = LEADER
        ∧ global_catalog (self w') = global_catalog (self w)
        ∧ effects w' = effects w.
Proof.
  intros Hst Ht Hr Hs Hp Hne.
  rewrite dispatch_heartbeat by done.
  unfold handle_heartbeat. run_monad. rewrite Hst. simpl. rewrite Hst.
  rewrite (bool_decide_eq_false_2 _ Hr). simpl.
  rewrite (note_peer_heartbeat_run env message w pid Hp Hne).
  eexists. split; [done |]. simpl. repeat split.
  - apply dom_alter_L.
  - apply lookup_alter_eq.
  - intros q Hq. by apply lookup_alter_ne.
  - done.
Qed.

Lemma peer_heartbeat_at_leader_witness :
  ∃ w', handle_udp_message env_100 heartbeat_x from_9 world_leader_z
        = (w', Ok tt)
        ∧ last_heartbeats (self w')
          = <["x" := 100]> (last_heartbeats (self world_leader_z))
        ∧ dom (peers (self w')) = dom (peers (self world_leader_z))
        ∧ peers (self w') !! "x"
          = (λ r, mkPeerRecord (addr r) 100)
              <$> peers (self world_leader_z) !! "x"
        ∧ (∀ q, q ≠ "x" →
             peers (self w') !! q = peers (self world_leader_z) !! q)
        ∧ state (self w') = LEADER
        ∧ global_catalog (self w') = global_catalog (self world_leader_z)
        ∧ effects w' = effects world_leader_z.
Proof.
  apply (peer_heartbeat_at_leader env_100 heartbeat_x from_9 world_leader_z
           "x"); try reflexivity; intros H; discriminate H.
Defined.

Lemma spared_refl pid p : spared pid p p.
Proof. by repeat split. Qed.

Lemma spared_trans pid p1 p2 p3 :
  spared pid p1 p2 → spared pid p2 p3 → spared pid p1 p3.
Proof.
  intros (A1 & A2 & A3) (B1 & B2 & B3).
  split; [congruence |]. split; [congruence |].
  intros f. by rewrite B3, A3.
Qed.

Lemma purged_keeps_others pid q o :
  q ≠ pid →
  filter (λ e, e_peer_id e = pid) (default [] (purged q o))
  = filter (λ e, e_peer_id e = pid) (default [] o).
Proof.
  intros Hne. unfold purged.
  assert (filter (λ e, e_peer_id e = pid)
                 (filter (λ e, e_peer_id e ≠ q) (default [] o))
          = filter (λ e, e_peer_id e = pid) (default [] o)) as H.
  { induction (default [] o) as [| x xs IH]; [done |].
    rewrite (filter_cons (λ e, e_peer_id e ≠ q)).
    rewrite (filter_cons (λ e, e_peer_id e = pid) x xs).
    case_decide as Hq.
    - rewrite filter_cons. by rewrite IH.
    - rewrite decide_False by congruence. apply IH. }
  destruct (filter (λ e, e_peer_id e ≠ q) (default [] o)) as [| e es];
    simpl; by rewrite <- H.
Qed.

Lemma remove_dead_peer_spares p q pid :
  q ≠ pid → spared pid p (remove_dead_peer p q).
Proof.
  intros Hne. unfold spared, remove_dead_peer. simpl.
  rewrite !lookup_delete_ne by done. repeat split.
  intros f. rewrite purge_catalog_lookup. by apply purged_keeps_others.
Qed.

Lemma remove_dead_peers_spare dead pid :
  ∀ p, pid ∉ dead → spared pid p (foldl remove_dead_peer p dead).
Proof.
  induction dead as [| d dead IH]; intros p Hout; cbn [foldl].
  - apply spared_refl.
  - apply not_elem_of_cons in Hout as [Hne Hout].
    eapply spared_trans; [| by apply IH].
    by apply remove_dead_peer_spares.
Qed.

(** X9: the sweep spares every peer that has no heartbeat on record
    that is more than 15 seconds old: its heartbeat record, its
    directory record and its catalog entries, under every filename and
    in their order, are what they were; this holds in every role. *)
Theorem sweep_spares_live_peer env w pid :
  (∀ t, last_heartbeats (self w) !! pid = Some t → now env - t ≤ 15) →
  ∃ w', monitor_peers_cycle env w = (w', Ok tt)
        ∧ spared pid (self w) (self w').
Proof.
  intros Hlive. unfold monitor_peers_cycle. run_monad.
  case_bool_decide; simpl.
  - eexists. split; [done |]. simpl. apply remove_dead_peers_spare.
    intros (t & Hl & Hold)%elem_of_dead_peers.
    specialize (Hlive t Hl). lia.
  - eexists. split; [done |]. apply spared_refl.
Qed.

Lemma sweep_spares_live_peer_witness :
  ∃ w', monitor_peers_cycle env_0 world_heartbeat = (w', Ok tt)
        ∧ spared "x" (self world_heartbeat) (self w').
Proof.
  apply (sweep_spares_live_peer env_0 world_heartbeat "x").
  intros t H. vm_compute in H. injection H as <-. done.
Defined.

(** X10: heartbeat and sweep together.  After the leader has handled a
    peer's heartbeat at one time, a sweep that runs at most 15 seconds
    later keeps the peer, and a sweep that runs later than that forgets
    it: heartbeat record, directory record and catalog entries. *)
Theorem heartbeat_then_sweep env1 env2 message a w pid :
  state (self w) = LEADER →
  m_type message = Some MSG_HEARTBEAT →
  m_role message ≠ Some (role_str LEADER) →
  m_sender_id message ≠ Some (id (self w)) →
  py_or (m_peer_id message) (m_sender_id message) = Some pid →
  pid ≠ "" →
  let w1 := (handle_udp_message env1 message a w).1 in
  let w2 := (monitor_peers_cycle env2 w1).1 in
  (now env2 - now env1 ≤ 15 →
     last_heartbeats (self w2) !! pid = Some (now env1)
     ∧ spared pid (self w1) (self w2))
  ∧ (15 < now env2 - now env1 → forgotten pid (self w2)).
Proof.
  intros Hst Ht Hr Hs Hp Hne w1 w2.
  assert (w1 = mkWorld
            (with_peers
               (alter (λ r, mkPeerRecord (addr r) (now env1)) pid
                      (peers (self w)))
               (with_last_heartbeats
                  (<[pid := now env1]> (last_heartbeats (self w)))
                  (self w)))
            (effects w)) as E1.
  { unfold w1. rewrite dispatch_heartbeat by done.
    unfold handle_heartbeat. run_monad. rewrite Hst. simpl. rewrite Hst.
    rewrite (bool_decide_eq_false_2 _ Hr). simpl.
    by rewrite (note_peer_heartbeat_run env1 message w pid Hp Hne). }
  assert (last_heartbeats (self w1) !! pid = Some (now env1)) as Hl.
  { rewrite E1. simpl. apply lookup_insert_eq. }
  assert (state (self w1) = LEADER) as Hst1 by by rewrite E1.
  assert (w2 = mkWorld (foldl remove_dead_peer (self w1)
                              (dead_peers env2 (self w1)))
                       (effects w1)) as E2.
  { unfold w2, monitor_peers_cycle. run_monad. by rewrite Hst1. }
  split; intros Hage.
  - assert (spared pid (self w1) (self w2)) as Hsp.
    { rewrite E2. simpl. apply remove_dead_peers_spare.
      intros (t & Hl' & Hold)%elem_of_dead_peers.
      rewrite Hl in Hl'. injection Hl' as <-. lia. }
    split; [| done]. destruct Hsp as (-> & _). done.
  - rewrite E2. simpl. apply remove_dead_peers_forgets. left.
    apply elem_of_dead_peers. by exists (now env1).
Qed.

Lemma heartbeat_then_sweep_witness :
  let w1 := (handle_udp_message env_0 heartbeat_x from_9
                                world_published).1 in
  (last_heartbeats (self (monitor_peers_cycle env_0 w1).1) !! "x" = Some 0
   ∧ spared "x" (self w1) (self (monitor_peers_cycle env_0 w1).1))
  ∧ forgotten "x" (self (monitor_peers_cycle env_100 w1).1).
Proof.
  split.
  - apply (heartbeat_then_sweep env_0 env_0 heartbeat_x from_9
             world_published "x"); try reflexivity; try done.
  - apply (heartbeat_then_sweep env_0 env_100 heartbeat_x from_9
             world_published "x"); try reflexivity; try done.
Defined.

(** X11: the follower's view of its leader.  A heartbeat from the
    leader it follows sets the time of the last leader heartbeat; a
    heartbeat cycle at most 10 seconds later changes nothing; a cycle
    later than that forgets the leader and, when no election is in
    progress, starts one. *)
Theorem leader_heartbeat_then_cycle env1 env2 message a w leader :
  state (self w) = FOLLOWER →
  leader_id (self w) = Some leader →
  leader ≠ "" →
  leader ≠ id (self w) →
  m_type message = Some MSG_HEARTBEAT →
  m_sender_id message = Some leader →
  let w1 := mkWorld (with_last_leader_heartbeat (now env1) (self w))
                    (effects w) in
  handle_udp_message env1 message a w = (w1, Ok tt)
  ∧ (now env2 - now env1 ≤ 10 → heartbeat_cycle env2 w1 = (w1, Ok tt))
  ∧ (10 < now env2 - now env1 →
     election_in_progress (election_manager (self w)) = false →
     heartbeat_cycle env2 w1
     = (election_started env2
          (mkWorld (with_leader_id None (self w1)) (effects w1)), Ok tt)).
Proof.
  intros Hst Hl Hne Hself Ht Hs w1.
  assert (truthy (Some leader) = true) as Htruthy.
  { simpl. by destruct (String.eqb_spec leader ""). }
  split; [| split].
  - rewrite dispatch_heartbeat by congruence.
    unfold handle_heartbeat. run_monad. rewrite Hst, Hs, Hl. simpl.
    rewrite bool_decide_eq_true_2 by done. simpl. by rewrite Hst.
  - intros Hage. unfold heartbeat_cycle. run_monad. simpl.
    rewrite Hst, Hl, Htruthy. simpl.
    by rewrite bool_decide_eq_false_2 by lia.
  - intros Hage Hidle. unfold heartbeat_cycle. run_monad. simpl.
    rewrite Hst, Hl, Htruthy. simpl.
    rewrite bool_decide_eq_true_2 by lia. simpl.
    by rewrite start_election_idle.
Qed.

Lemma leader_heartbeat_then_cycle_witness :
  let w1 := mkWorld (with_last_leader_heartbeat 0 (self world_follower_of_z))
                    (effects world_follower_of_z) in
  handle_udp_message env_0 (leader_heartbeat_msg "z") from_9
                     world_follower_of_z = (w1, Ok tt)
  ∧ heartbeat_cycle env_5 w1 = (w1, Ok tt)
  ∧ heartbeat_cycle env_100 w1
    = (election_started env_100
         (mkWorld (with_leader_id None (self w1)) (effects w1)), Ok tt).
Proof.
  split; [| split].
  - apply (leader_heartbeat_then_cycle env_0 env_5
             (leader_heartbeat_msg "z") from_9 world_follower_of_z "z");
      try reflexivity; intros H; discriminate H.
  - apply (leader_heartbeat_then_cycle env_0 env_5
             (leader_heartbeat_msg "z") from_9 world_follower_of_z "z");
      try reflexivity; try done.
  - apply (leader_heartbeat_then_cycle env_0 env_100
             (leader_heartbeat_msg "z") from_9 world_follower_of_z "z");
      try reflexivity; try done.
Defined.

(** X12: accepting a COORDINATOR does not count as hearing from the new
    leader.  When the last leader heartbeat is more than 10 seconds old,
    the peer that has just adopted the announced leader forgets it at
    its next heartbeat cycle and broadcasts an ELECTION of its own,
    unless a heartbeat of the new leader is handled in between. *)
Theorem coordinator_keeps_stale_heartbeat env message a w new_leader :
  m_type message = Some MSG_COORDINATOR →
  m_sender_id message = Some new_leader →
  new_leader ≠ id (self w) →
  new_leader ≠ "" →
  10 < now env - last_leader_heartbeat (self w) →
  let w1 := (handle_udp_message env message a w).1 in
  let w2 := (heartbeat_cycle env w1).1 in
  leader_id (self w1) = Some new_leader
  ∧ last_leader_heartbeat (self w1) = last_leader_heartbeat (self w)
  ∧ leader_id (self w2) = None
  ∧ election_in_progress (election_manager (self w2)) = true
  ∧ effects w2
    = effects w ++ [SendBroadcast (election_msg (id (self w)))
                                  BROADCAST_PORT;
                    StartTimer 3 cb_check_election_result].
Proof.
  intros Ht Hs Hself Hne Hage w1 w2.
  assert (w1 = coordinator_accepted env new_leader (m_addr message) w)
    as E1.
  { unfold w1. rewrite (dispatch_coordinator _ _ _ _ new_leader) by done.
    unfold handle_coordinator, coordinator_accepted. run_monad.
    rewrite Hs. by destruct (m_addr message). }
  assert (w2 = election_started env
                 (mkWorld (with_leader_id None (self w1)) (effects w1)))
    as E2.
  { unfold w2, heartbeat_cycle. run_monad. rewrite E1. simpl.
    destruct (String.eqb_spec new_leader ""); [done |]. simpl.
    rewrite bool_decide_eq_true_2 by lia. simpl.
    unfold election_started. simpl. by rewrite <- app_assoc. }
  rewrite E2, E1. by repeat split.
Qed.

Lemma coordinator_keeps_stale_heartbeat_witness :
  let w1 := (handle_udp_message env_100 (coordinator_msg "z" from_9) from_9
                                (world_m FOLLOWER false)).1 in
  leader_id (self w1) = Some "z"
  ∧ leader_id (self (heartbeat_cycle env_100 w1).1) = None.
Proof.
  destruct (coordinator_keeps_stale_heartbeat env_100
              (coordinator_msg "z" from_9) from_9 (world_m FOLLOWER false)
              "z" eq_refl eq_refl) as (H1 & _ & H2 & _);
    [intros H; discriminate H | intros H; discriminate H | done |].
  exact (conj H1 H2).
Defined.

(** ** The catalog service *)

Lemma filter_others_after_replace pid (es : list Entry) (e : Entry) :
  e_peer_id e = pid →
  filter (λ e, e_peer_id e ≠ pid)
         (filter (λ e, e_peer_id e ≠ pid) es ++ [e])
  = filter (λ e, e_peer_id e ≠ pid) es.
Proof.
  intros He. rewrite filter_app, filter_cons, decide_False by tauto.
  rewrite filter_nil, app_nil_r.
  induction es as [| x xs IH]; [done |].
  rewrite filter_cons. case_decide; [| done].
  rewrite filter_cons, decide_True by done. by rewrite IH.
Qed.

(** X13: a PUBLISH is handled file by file.  Filenames the message does
    not carry keep their entries, those of the publisher included:
    publishing fewer files retracts nothing.  Under every filename the
    entries of the other peers stay as they are, in their order.
    Directory, heartbeat table, role and effects are not touched. *)
Theorem publish_touches_only_published env message a w sender files port :
  state (self w) = LEADER →
  m_sender_id message = Some sender →
  m_files message = Some files →
  m_tcp_port message = Some port →
  ∃ w', handle_publish env message a w = (w', Ok tt)
        ∧ (∀ f, files_as_dict files !! f = None →
             global_catalog (self w') !! f = global_catalog (self w) !! f)
        ∧ (∀ f, filter (λ e, e_peer_id e ≠ sender)
                       (default [] (global_catalog (self w') !! f))
                = filter (λ e, e_peer_id e ≠ sender)
                         (default [] (global_catalog (self w) !! f)))
        ∧ peers (self w') = peers (self w)
        ∧ last_heartbeats (self w') = last_heartbeats (self w)
        ∧ state (self w') = LEADER
        ∧ effects w' = effects w.
Proof.
  intros Hst Hs Hf Hp.
  rewrite (handle_publish_leader env message a w sender files port)
    by done.
  eexists. split; [done |]. simpl. fold (files_as_dict files).
  repeat split; try done.
  - intros f Hnone. by rewrite publish_loop_lookup, Hnone.
  - intros f. rewrite publish_loop_lookup.
    destruct (files_as_dict files !! f) as [md|]; [| done]. simpl.
    by apply filter_others_after_replace.
Qed.

Lemma publish_touches_only_published_witness :
  ∃ w', handle_publish env_100 (publish_msg "x" (files_dict files_h2) 50009)
                       (Some from_9) world_published = (w', Ok tt)
        ∧ (∀ f, files_as_dict (files_dict files_h2) !! f = None →
             global_catalog (self w') !! f
             = global_catalog (self world_published) !! f)
        ∧ (∀ f, filter (λ e, e_peer_id e ≠ "x")
                       (default [] (global_catalog (self w') !! f))
                = filter (λ e, e_peer_id e ≠ "x")
                         (default []
                            (global_catalog (self world_published) !! f)))
        ∧ peers (self w') = peers (self world_published)
        ∧ last_heartbeats (self w') = last_heartbeats (self world_published)
        ∧ state (self w') = LEADER
        ∧ effects w' = effects world_published.
Proof.
  apply (publish_touches_only_published env_100
           (publish_msg "x" (files_dict files_h2) 50009) (Some from_9)
           world_published "x" (files_dict files_h2) 50009);
    reflexivity.
Defined.

Lemma dispatch_publish env message a w :
  m_type message = Some MSG_PUBLISH →
  m_sender_id message ≠ Some (id (self w)) →
  handle_udp_message env message a w = handle_publish env message (Some a) w.
Proof.
  intros Ht Hne. unfold handle_udp_message. run_monad.
  rewrite Ht. by rewrite bool_decide_eq_false_2.
Qed.

(** X14: publishing from a follower.  [publish_files] sends one PUBLISH
    with the local files and the TCP port to the recorded address of the
    leader and changes nothing locally; the leader that handles it
    holds, under each published filename, exactly one entry of the
    publisher: its identifier, the IP address the datagram came from,
    its TCP port, and the size and hash of the file. *)
Theorem publish_files_reaches_leader
    env_f env_l wf wl files leader leader_info src :
  leader_id (self wf) = Some leader →
  leader ≠ "" →
  peers (self wf) !! leader = Some leader_info →
  files ≠ ∅ →
  state (self wl) = LEADER →
  id (self wf) ≠ id (self wl) →
  let msg := publish_msg (id (self wf)) (files_dict files)
                         (tcp_port (self wf)) in
  publish_files env_f files wf
  = (mkWorld (self wf) (effects wf ++ [SendPacket msg (addr leader_info)]),
     Ok tt)
  ∧ ∃ wl', handle_udp_message env_l msg src wl = (wl', Ok tt)
           ∧ ∀ f md, files !! f = Some md →
               ∃ entries,
                 global_catalog (self wl') !! f = Some entries
                 ∧ filter (λ e, e_peer_id e = id (self wf)) entries
                   = [mkEntry (id (self wf)) src.1 (tcp_port (self wf))
                              (default 0 (md_size md)) (md_hash md)].
Proof.
  intros Hl Hne Hinfo Hfiles Hst Hid msg. split.
  - unfold publish_files. run_monad. rewrite Hl. simpl.
    destruct (String.eqb_spec leader ""); [done |]. simpl.
    rewrite bool_decide_eq_false_2 by done. by rewrite Hinfo.
  - rewrite dispatch_publish by (simpl; congruence).
    rewrite (handle_publish_leader env_l msg (Some src) wl (id (self wf))
               (files_dict files) (tcp_port (self wf))) by done.
    eexists. split; [done |]. intros f md Hmd. simpl.
    rewrite publish_loop_lookup, Hmd. eexists. split; [done |].
    by apply filter_own_after_replace.
Qed.

Lemma publish_files_reaches_leader_witness :
  let msg := publish_msg "m" (files_dict files_h1) 50001 in
  publish_files env_0 files_h1 world_follower_knows_z
  = (mkWorld (self world_follower_knows_z) [SendPacket msg from_z], Ok tt)
  ∧ ∃ wl', handle_udp_message env_0 msg from_m world_leader_z = (wl', Ok tt)
           ∧ ∀ f md, files_h1 !! f = Some md →
               ∃ entries,
                 global_catalog (self wl') !! f = Some entries
                 ∧ filter (λ e, e_peer_id e = "m") entries
                   = [mkEntry "m" "10.0.0.1" 50001
                              (default 0 (md_size md)) (md_hash md)].
Proof.
  apply (publish_files_reaches_leader env_0 env_0 world_follower_knows_z
           world_leader_z files_h1 "z" (mkPeerRecord from_z 0) from_m);
    try reflexivity; intros H; discriminate H.
Defined.

(** X15: publishing at the leader itself.  A leader that has no
    directory record of itself handles its own PUBLISH locally: nothing
    is sent, and under each of its files the catalog holds exactly one
    entry of the leader, with the local IP address as host. *)
Theorem publish_files_at_leader env w files :
  state (self w) = LEADER →
  leader_id (self w) = Some (id (self w)) →
  id (self w) ≠ "" →
  peers (self w) !! id (self w) = None →
  files ≠ ∅ →
  ∃ w', publish_files env files w = (w', Ok tt)
        ∧ effects w' = effects w
        ∧ ∀ f md, files !! f = Some md →
            ∃ entries,
              global_catalog (self w') !! f = Some entries
              ∧ filter (λ e, e_peer_id e = id (self w)) entries
                = [mkEntry (id (self w)) (get_local_ip env)
                           (tcp_port (self w))
                           (default 0 (md_size md)) (md_hash md)].
Proof.
  intros Hst Hl Hne Hnone Hfiles.
  unfold publish_files. run_monad. rewrite Hl. simpl.
  destruct (String.eqb_spec (id (self w)) ""); [done |]. simpl.
  rewrite bool_decide_eq_false_2 by done. rewrite Hnone, Hst. simpl.
  rewrite (handle_publish_leader env _ None w (id (self w))
             (files_dict files) (tcp_port (self w))) by done.
  eexists. split; [done |]. split; [done |]. intros f md Hmd. simpl.
  rewrite publish_loop_lookup, Hmd. eexists. split; [done |].
  by apply filter_own_after_replace.
Qed.

Lemma publish_files_at_leader_witness :
  ∃ w', publish_files env_0 files_h1 world_leader_z = (w', Ok tt)
        ∧ effects w' = effects world_leader_z
        ∧ ∀ f md, files_h1 !! f = Some md →
            ∃ entries,
              global_catalog (self w') !! f = Some entries
              ∧ filter (λ e, e_peer_id e = "z") entries
                = [mkEntry "z" "10.0.0.1" 50026
                           (default 0 (md_size md)) (md_hash md)].
Proof.
  apply (publish_files_at_leader env_0 world_leader_z files_h1);
    try reflexivity; intros H; discriminate H.
Defined.

Lemma dispatch_query_files env message a w :
  m_type message = Some MSG_QUERY_FILES →
  m_sender_id message ≠ Some (id (self w)) →
  handle_udp_message env message a w = handle_query_files env message a w.
Proof.
  intros Ht Hne. unfold handle_udp_message. run_monad.
  rewrite Ht. by rewrite bool_decide_eq_false_2.
Qed.

Lemma dispatch_file_list env message a w :
  m_type message = Some MSG_FILE_LIST →
  m_sender_id message ≠ Some (id (self w)) →
  handle_udp_message env message a w = handle_file_list env message w.
Proof.
  intros Ht Hne. unfold handle_udp_message. run_monad.
  rewrite Ht. by rewrite bool_decide_eq_false_2.
Qed.

(** X16: the query round trip.  [query_files] sends QUERY_FILES to the
    recorded address of the leader; the leader answers to the
    datagram's source address with a FILE_LIST that carries its whole
    catalog and keeps its own state; the peer that handles the answer
    holds the leader's catalog in place of its own. *)
Theorem query_round_trip
    env_f env_l env_f' wf wl leader leader_info src_f src_l :
  leader_id (self wf) = Some leader →
  leader ≠ "" →
  peers (self wf) !! leader = Some leader_info →
  state (self wl) = LEADER →
  id (self wf) ≠ id (self wl) →
  let query := query_files_msg (id (self wf)) in
  let answer := file_list_msg (id (self wl)) (global_catalog (self wl)) in
  let wf1 := mkWorld (self wf)
                     (effects wf ++ [SendPacket query (addr leader_info)]) in
  query_files env_f wf = (wf1, Ok tt)
  ∧ handle_udp_message env_l query src_f wl
    = (mkWorld (self wl) (effects wl ++ [SendPacket answer src_f]), Ok tt)
  ∧ handle_udp_message env_f' answer src_l wf1
    = (mkWorld (with_global_catalog (global_catalog (self wl)) (self wf))
               (effects wf1), Ok tt).
Proof.
  intros Hl Hne Hinfo Hst Hid query answer wf1. split; [| split].
  - unfold query_files. run_monad. rewrite Hl. simpl.
    destruct (String.eqb_spec leader ""); [done |]. simpl.
    by rewrite Hinfo.
  - rewrite dispatch_query_files by (simpl; congruence).
    unfold handle_query_files. run_monad. by rewrite Hst.
  - rewrite dispatch_file_list by (simpl; congruence).
    unfold handle_file_list. run_monad. reflexivity.
Qed.

Lemma query_round_trip_witness :
  let query := query_files_msg "m" in
  let answer :=
    file_list_msg "z" (global_catalog (self world_leader_z_catalog)) in
  let wf1 := mkWorld (self world_follower_knows_z)
                     [SendPacket query from_z] in
  query_files env_0 world_follower_knows_z = (wf1, Ok tt)
  ∧ handle_udp_message env_0 query from_m world_leader_z_catalog
    = (mkWorld (self world_leader_z_catalog) [SendPacket answer from_m],
       Ok tt)
  ∧ handle_udp_message env_0 answer from_z wf1
    = (mkWorld (with_global_catalog
                  (global_catalog (self world_leader_z_catalog))
                  (self world_follower_knows_z))
               (effects wf1), Ok tt).
Proof.
  apply (query_round_trip env_0 env_0 env_0 world_follower_knows_z
           world_leader_z_catalog "z" (mkPeerRecord from_z 0) from_m
           from_z);
    try reflexivity; intros H; discriminate H.
Defined.

(** X17: a leader that steps down for a higher leader it has no
    directory record of adopts it without an address: afterwards it can
    neither publish to it, nor query it, nor send it a heartbeat; each
    of these returns without sending anything. *)
Theorem stepped_down_leader_is_cut_off env env' message a w sender files :
  state (self w) = LEADER →
  m_type message = Some MSG_HEARTBEAT →
  m_role message = Some (role_str LEADER) →
  m_sender_id message = Some sender →
  str_gt sender (id (self w)) = true →
  peers (self w) !! sender = None →
  let w1 := stepped_down env sender w in
  handle_udp_message env message a w = (w1, Ok tt)
  ∧ publish_files env' files w1 = (w1, Ok tt)
  ∧ query_files env' w1 = (w1, Ok tt)
  ∧ send_heartbeats_cycle env' w1 = (w1, Ok tt).
Proof.
  intros Hst Ht Hr Hs Hgt Hnone w1.
  pose proof (str_gt_neq _ _ Hgt) as Hne.
  split; [| split; [| split]].
  - rewrite dispatch_heartbeat by congruence.
    unfold handle_heartbeat. run_monad. rewrite Hst. simpl.
    rewrite Hst, Hr, Hs. simpl. by rewrite Hgt.
  - unfold publish_files. run_monad. simpl.
    destruct (negb _); [done |]. case_bool_decide; [done |].
    by rewrite Hnone.
  - unfold query_files. run_monad. simpl.
    destruct (negb _); [done |]. by rewrite Hnone.
  - unfold send_heartbeats_cycle. run_monad. simpl.
    destruct (_ && _); [| done]. by rewrite Hnone.
Qed.

Lemma stepped_down_leader_is_cut_off_witness :
  let w1 := stepped_down env_100 "z" (world_m LEADER false) in
  handle_udp_message env_100 (leader_heartbeat_msg "z") from_9
                     (world_m LEADER false) = (w1, Ok tt)
  ∧ publish_files env_100 files_h1 w1 = (w1, Ok tt)
  ∧ query_files env_100 w1 = (w1, Ok tt)
  ∧ send_heartbeats_cycle env_100 w1 = (w1, Ok tt).
Proof.
  apply (stepped_down_leader_is_cut_off env_100 env_100
           (leader_heartbeat_msg "z") from_9 (world_m LEADER false) "z"
           files_h1);
    reflexivity.
Defined.

(** X18: in a system of peers that run this code and start without a
    catalog, no catalog ever lists a filename without an entry,
    whatever the peers do and whichever of the messages sent are
    delivered: the loop of [handle_publish] appends an entry under
    every filename it touches, the sweep deletes a filename whose list
    it has emptied, and a FILE_LIST brings a catalog of the leader. *)
Theorem catalog_lists_stay_non_empty ws ws' :
  Forall fresh ws →
  rtc system_step ws ws' →
  Forall (λ w, no_empty_list (global_catalog (self w))) ws'.
Proof. apply (system_run_ok no_empty_list no_empty_list_property). Qed.

Lemma catalog_lists_stay_non_empty_witness :
  Forall (λ w, no_empty_list (global_catalog (self w))) pair_informed.
Proof.
  exact (catalog_lists_stay_non_empty fresh_pair pair_informed
           fresh_pair_fresh fresh_pair_run).
Defined.

(** ** The transfer framing *)

Lemma byte_of_Z_value z : Z.of_N (Byte.to_N (byte_of_Z z)) = z mod 256.
Proof.
  unfold byte_of_Z.
  pose proof (Z.mod_pos_bound z 256 ltac:(lia)) as Hb.
  destruct (Byte.of_N (Z.to_N (z mod 256))) as [b|] eqn:E.
  - change (Z.of_N (Byte.to_N b) = z mod 256).
    apply Byte.to_of_N in E. rewrite E. lia.
  - apply Byte.of_N_None_iff in E. lia.
Qed.

Lemma pack_Q_Ok n header :
  pack_Q n = Ok header →
  0 ≤ n < 2 ^ 64
  ∧ List.length header = 8%nat
  ∧ unpack_Q header = Ok n.
Proof.
  unfold pack_Q. case_bool_decide as Hn; [| done].
  intros [= <-]. split; [done |]. split; [reflexivity |].
  unfold unpack_Q.
  cbn [fmap list_fmap foldl List.length bool_decide decide_rel].
  rewrite bool_decide_eq_true_2 by reflexivity.
  rewrite !byte_of_Z_value. f_equal.
  change (2 ^ 64) with 18446744073709551616 in Hn.
  change (7 - 0) with 7. change (7 - 1) with 6. change (7 - 2) with 5.
  change (7 - 3) with 4. change (7 - 4) with 3. change (7 - 5) with 2.
  change (7 - 6) with 1. change (7 - 7) with 0.
  change (256 ^ 0) with 1. change (256 ^ 1) with 256.
  change (256 ^ 2) with 65536. change (256 ^ 3) with 16777216.
  change (256 ^ 4) with 4294967296.
  change (256 ^ 5) with 1099511627776.
  change (256 ^ 6) with 281474976710656.
  change (256 ^ 7) with 72057594037927936.
  rewrite Z.div_1_r. Z.div_mod_to_equations. lia.
Qed.

(** X19: the length header round trip.  For every length in the
    unsigned 64-bit range [pack_Q] yields eight bytes that [unpack_Q]
    reads back as that length; a length outside the range is refused,
    and so is a header that is not eight bytes long. *)
Theorem pack_unpack_Q n :
  (0 ≤ n < 2 ^ 64 →
     ∃ header, pack_Q n = Ok header
               ∧ List.length header = 8%nat
               ∧ unpack_Q header = Ok n)
  ∧ (¬ 0 ≤ n < 2 ^ 64 → pack_Q n = Raise StructError)
  ∧ (∀ raw, List.length raw ≠ 8%nat → unpack_Q raw = Raise StructError).
Proof.
  split; [| split].
  - intros Hn. destruct (pack_Q n) as [header | e] eqn:E.
    + exists header. split; [done |]. by apply pack_Q_Ok in E as (_ & ? & ?).
    + unfold pack_Q in E. by rewrite bool_decide_eq_true_2 in E.
  - intros Hn. unfold pack_Q. by rewrite bool_decide_eq_false_2.
  - intros raw Hlen. unfold unpack_Q. by rewrite bool_decide_eq_false_2.
Qed.

Lemma pack_unpack_Q_witness :
  ∃ header, pack_Q 513 = Ok header
            ∧ List.length header = 8%nat
            ∧ unpack_Q header = Ok 513.
Proof.
  apply (proj1 (pack_unpack_Q 513)).
  change (2 ^ 64) with 18446744073709551616. lia.
Defined.

(** ** Receiving a file *)










(** ** Sending a file *)

Lemma send_chunks_wire fuel size :
  1 ≤ size →
  ∀ content s,
    (List.length content < fuel)%nat →
    ∃ chunks,
      send_chunks fuel size content s
      = (mkServer (sent s ++ chunks) (server_console s) (closed s), Ok tt)
      ∧ List.concat chunks = content
      ∧ Forall (λ c, (1 ≤ List.length c ≤ Z.to_nat size)%nat) chunks.
Proof.
  intros Hsize. induction fuel as [| fuel IH]; intros content s Hfuel;
    [lia |].
  cbn [send_chunks].
  destruct (take (Z.to_nat size) content) as [| b chunk] eqn:Et.
  - exists []. rewrite app_nil_r. split; [by destruct s |]. split; [| done].
    destruct content as [| x xs]; [done |].
    destruct (Z.to_nat size) eqn:E; [lia | done].
  - unfold sendall. run_monad. cbn [sent server_console closed].
    destruct (IH (drop (Z.to_nat size) content)
                 (mkServer (sent s ++ [b :: chunk]) (server_console s)
                           (closed s)))
      as (chunks & -> & Hcat & Hall).
    { rewrite length_drop.
      destruct content; [by rewrite take_nil in Et |].
      assert (1 ≤ Z.to_nat size)%nat by lia. simpl in *. lia. }
    exists ((b :: chunk) :: chunks). cbn [sent server_console closed].
    rewrite <- app_assoc. split; [done |]. split.
    + rewrite List.concat_cons, Hcat, <- Et. apply take_drop.
    + constructor; [| done]. rewrite <- Et, length_take. split; [| lia].
      destruct content; [by rewrite take_nil in Et |]. simpl. lia.
Qed.

Lemma handle_transfer_sends
    path_join decode_strip disk disk_dirs shared_dir client_sock
    raw rest filename :
  recv 1024 client_sock = (Ok raw, rest) →
  decode_strip raw = Ok filename →
  let s := (handle_transfer path_join decode_strip disk disk_dirs shared_dir
                            client_sock idle_server).1 in
  closed s = true
  ∧ match disk !! path_join shared_dir filename with
    | Some content =>
        Z.of_nat (List.length content) < 2 ^ 64 →
        ∃ header,
          pack_Q (Z.of_nat (List.length content)) = Ok header
          ∧ wire s = header ++ content
          ∧ Forall (λ c, (List.length c ≤ 4096)%nat) (sent s)
          ∧ server_console s = [Sending_file filename]
    | None =>
        match disk_dirs !! path_join shared_dir filename with
        | Some size =>
            0 ≤ size < 2 ^ 64 →
            ∃ header,
              pack_Q size = Ok header
              ∧ wire s = header
              ∧ server_console s
                = [Sending_file filename; Error_handling_transfer OSError]
        | None => sent s = [] ∧ server_console s = [File_not_found filename]
        end
    end.
Proof.
  intros Hrecv Hdec s. subst s.
  unfold handle_transfer, try_except, close, server_print. run_monad.
  rewrite Hrecv, Hdec.
  destruct (disk !! path_join shared_dir filename) as [content|] eqn:E.
  - destruct (pack_Q (Z.of_nat (List.length content))) as [header | e]
      eqn:Epack.
    + unfold sendall. run_monad.
      match goal with |- context [send_chunks ?f ?z ?c ?s0] =>
        destruct (send_chunks_wire f z ltac:(lia) c s0 ltac:(lia))
          as (chunks & -> & Hcat & Hall) end.
      cbn [fst snd sent server_console closed app]. split; [done |].
      intros _. exists header. split; [done |]. unfold wire, idle_server.
      cbn [sent server_console closed app List.concat].
      split; [| split; [| done]].
      * by rewrite Hcat.
      * constructor.
        -- apply pack_Q_Ok in Epack as (_ & -> & _). lia.
        -- eapply Forall_impl; [exact Hall |]. simpl. intros c Hc.
           change (Z.to_nat 4096) with 4096%nat in Hc. lia.
    + cbn [fst snd sent server_console closed]. split; [done |].
      intros Hn. unfold pack_Q in Epack.
      rewrite bool_decide_eq_true_2 in Epack by lia. discriminate Epack.
  - destruct (disk_dirs !! path_join shared_dir filename) as [size|] eqn:Ed;
      [| by split].
    destruct (pack_Q size) as [header | e] eqn:Epack.
    + unfold sendall. run_monad.
      cbn [fst snd sent server_console closed app]. split; [done |].
      intros _. exists header. split; [done |]. unfold wire, idle_server.
      cbn [sent server_console closed app List.concat].
      by rewrite app_nil_r.
    + cbn [fst snd sent server_console closed]. split; [done |].
      intros Hn. unfold pack_Q in Epack.
      rewrite bool_decide_eq_true_2 in Epack by lia. discriminate Epack.
Qed.

(** X21: what the serving side puts on the wire.  For a request that
    names a regular file of the shared directory, [handle_transfer]
    sends the eight-byte header of the file's length and then the
    content, in payloads of at most 4096 bytes.  For a name that is a
    directory there, as the empty request is, it announces the sending,
    sends the header of the directory's size and nothing after it, and
    prints the error of [open].  For a name that is neither it sends
    nothing and prints that the file was not found.  In every case the
    socket is closed. *)
Theorem handle_transfer_wire
    path_join decode_strip disk disk_dirs shared_dir client_sock
    raw rest filename :
  recv 1024 client_sock = (Ok raw, rest) →
  decode_strip raw = Ok filename →
  let s := (handle_transfer path_join decode_strip disk disk_dirs shared_dir
                            client_sock idle_server).1 in
  closed s = true
  ∧ match disk !! path_join shared_dir filename with
    | Some content =>
        Z.of_nat (List.length content) < 2 ^ 64 →
        ∃ header,
          pack_Q (Z.of_nat (List.length content)) = Ok header
          ∧ wire s = header ++ content
          ∧ Forall (λ c, (List.length c ≤ 4096)%nat) (sent s)
          ∧ server_console s = [Sending_file filename]
    | None =>
        match disk_dirs !! path_join shared_dir filename with
        | Some size =>
            0 ≤ size < 2 ^ 64 →
            ∃ header,
              pack_Q size = Ok header
              ∧ wire s = header
              ∧ server_console s
                = [Sending_file filename; Error_handling_transfer OSError]
        | None => sent s = [] ∧ server_console s = [File_not_found filename]
        end
    end.
Proof. apply handle_transfer_sends. Qed.

Lemma handle_transfer_wire_witness :
  (let s := (handle_transfer sample_path_join sample_decode_strip
               sample_disk sample_disk_dirs "shared"
               (mkSocket [x61] false) idle_server).1 in
   closed s = true
   ∧ ∃ header,
       pack_Q 2 = Ok header
       ∧ wire s = header ++ [x68; x69]
       ∧ Forall (λ c, (List.length c ≤ 4096)%nat) (sent s)
       ∧ server_console s = [Sending_file "a"])
  ∧ (let s := (handle_transfer sample_path_join sample_decode_strip
                 sample_disk sample_disk_dirs "shared"
                 (mkSocket [] false) idle_server).1 in
     ∃ header,
       pack_Q 4096 = Ok header
       ∧ wire s = header
       ∧ server_console s
         = [Sending_file ""; Error_handling_transfer OSError]).
Proof.
  split.
  - destruct (handle_transfer_wire sample_path_join sample_decode_strip
                sample_disk sample_disk_dirs "shared" (mkSocket [x61] false)
                [x61] (mkSocket [] false) "a" eq_refl eq_refl) as [H1 H2].
    split; [exact H1 |].
    change (sample_disk !! sample_path_join "shared" "a")
      with (Some [x68; x69]) in H2.
    apply H2. change (2 ^ 64) with 18446744073709551616. simpl. lia.
  - destruct (handle_transfer_wire sample_path_join sample_decode_strip
                sample_disk sample_disk_dirs "shared" (mkSocket [] false)
                [] (mkSocket [] false) "" eq_refl eq_refl) as [_ H2].
    change (sample_disk !! sample_path_join "shared" "")
      with (@None (list byte)) in H2.
    change (sample_disk_dirs !! sample_path_join "shared" "")
      with (Some 4096) in H2.
    apply H2. change (2 ^ 64) with 18446744073709551616. lia.
Defined.

(** ** Downloads as a whole *)



















(** [TCPClient.send_file] sends nothing, whatever it is asked to
    send. *)
Lemma send_file_sends_nothing host port file_path s :
  sent (send_file host port file_path s).1 = sent s.
Proof. reflexivity. Qed.

(** ** Listing the shared directory *)

Lemma list_one_lookup sha256_hexdigest path_join shared_dir disk names g :
  ∀ files,
    foldl (list_one sha256_hexdigest path_join shared_dir disk) files names
    !! g
    = if bool_decide (g ∈ names ∧ String.prefix "." g = false
                      ∧ is_Some (disk !! path_join shared_dir g))
      then (λ content,
              mkMetadata (Some (Z.of_nat (List.length content)))
                         (Some (sha256_hexdigest content)))
             <$> disk !! path_join shared_dir g
      else files !! g.
Proof.
  induction names as [| n names IH]; intros files; cbn [foldl].
  - rewrite bool_decide_eq_false_2; [done |].
    intros [H _]. by apply elem_of_nil in H.
  - rewrite IH. clear IH. case_bool_decide as Hin.
    + rewrite bool_decide_eq_true_2; [done |].
      destruct Hin as (? & ? & ?). split; [by right | done].
    + case_bool_decide as Hin'; [| unfold list_one].
      * destruct Hin' as ([-> | Hg]%elem_of_cons & Hdot & [c Hc]);
          [| exfalso; apply Hin; by eauto].
        unfold list_one. rewrite Hdot, Hc. simpl.
        by rewrite lookup_insert_eq.
      * destruct (String.prefix "." n) eqn:Hdot; [done |].
        destruct (disk !! path_join shared_dir n) as [c|] eqn:Hc; [| done].
        destruct (decide (n = g)) as [-> | Hne].
        -- exfalso. apply Hin'. split; [by left | by eauto].
        -- by rewrite lookup_insert_ne.
Qed.

(** X25: what [list_files] reports.  A name is listed exactly when it
    is in the directory listing, does not begin with a dot and is a
    regular file; it is listed with the length of the file as size and
    the SHA-256 of its content as hash.  When the shared directory does
    not exist the result is empty. *)
Theorem list_files_lookup
    sha256_hexdigest path_join shared_dir disk names f :
  list_files sha256_hexdigest path_join shared_dir disk (Some names) !! f
  = (if bool_decide (f ∈ names ∧ String.prefix "." f = false
                     ∧ is_Some (disk !! path_join shared_dir f))
     then (λ content,
             mkMetadata (Some (Z.of_nat (List.length content)))
                        (Some (sha256_hexdigest content)))
            <$> disk !! path_join shared_dir f
     else None)
  ∧ list_files sha256_hexdigest path_join shared_dir disk None = ∅.
Proof.
  split; [| done]. unfold list_files. rewrite list_one_lookup.
  by case_bool_decide.
Qed.

Example list_files_sample :
  list_files sample_sha256 sample_path_join "shared" sample_shared_disk
             (Some sample_listing)
  = {[ "a" := mkMetadata (Some 2) (Some "2cf2") ]}.
Proof. by vm_compute. Qed.

(** ** The follower's heartbeat *)

(** X26: the follower's heartbeat path.  A peer that follows another
    peer whose address it has on record sends it one HEARTBEAT carrying
    its peer_id and changes nothing locally; the leader that handles it
    records the time under that identifier.  A peer that is its own
    leader sends nothing. *)
Theorem follower_heartbeat_reaches_leader
    env_f env_l wf wl leader leader_info src :
  leader_id (self wf) = Some leader →
  leader ≠ "" →
  leader ≠ id (self wf) →
  peers (self wf) !! leader = Some leader_info →
  id (self wf) ≠ "" →
  state (self wl) = LEADER →
  let beat := peer_heartbeat_msg (id (self wf)) in
  send_heartbeats_cycle env_f wf
  = (mkWorld (self wf) (effects wf ++ [SendPacket beat (addr leader_info)]),
     Ok tt)
  ∧ (∃ wl', handle_udp_message env_l beat src wl = (wl', Ok tt)
            ∧ last_heartbeats (self wl') !! id (self wf)
              = Some (now env_l))
  ∧ (leader_id (self wl) = Some (id (self wl)) →
     send_heartbeats_cycle env_l wl = (wl, Ok tt)).
Proof.
  intros Hl Hne Hself Hinfo Hid Hst beat. split; [| split].
  - unfold send_heartbeats_cycle. run_monad. rewrite Hl. simpl.
    destruct (String.eqb_spec leader ""); [done |]. simpl.
    rewrite bool_decide_eq_true_2 by congruence. by rewrite Hinfo.
  - rewrite dispatch_heartbeat by done.
    unfold handle_heartbeat. run_monad. rewrite Hst. simpl. rewrite Hst.
    simpl.
    rewrite (note_peer_heartbeat_run env_l beat wl (id (self wf)))
      by (try done; unfold py_or; simpl;
          by destruct (String.eqb_spec (id (self wf)) "")).
    eexists. split; [done |]. simpl. apply lookup_insert_eq.
  - intros Hown. unfold send_heartbeats_cycle. run_monad. rewrite Hown.
    rewrite (bool_decide_eq_false_2 (Some (id (self wl))
                                     ≠ Some (id (self wl)))) by tauto.
    rewrite andb_false_r. by destruct wl.
Qed.

Lemma follower_heartbeat_reaches_leader_witness :
  let beat := peer_heartbeat_msg "m" in
  send_heartbeats_cycle env_0 world_follower_knows_z
  = (mkWorld (self world_follower_knows_z) [SendPacket beat from_z], Ok tt)
  ∧ (∃ wl', handle_udp_message env_100 beat from_m world_leader_z
            = (wl', Ok tt)
            ∧ last_heartbeats (self wl') !! "m" = Some 100)
  ∧ send_heartbeats_cycle env_100 world_leader_z = (world_leader_z, Ok tt).
Proof.
  destruct (follower_heartbeat_reaches_leader env_0 env_100
              world_follower_knows_z world_leader_z "z"
              (mkPeerRecord from_z 0) from_m)
    as (H1 & H2 & H3); try reflexivity; try (intros H; discriminate H).
  split; [exact H1 |]. split; [exact H2 |]. exact (H3 eq_refl).
Defined.
